(** * Hybrid retrieval engine (retriever.py, generator.py): model and properties

    The Python module [retriever.py] is embedded function by function.
    Python values are modelled as follows:
    - [str] is a list of Unicode code points ([pystr]);
    - [int] is [Z]; a [float] score is a rational ([Q]): the retriever only
      copies and compares scores (no NaN is assumed);
    - a raised exception is the [Raise] branch of [result];
    - the mutable parts of the process (the [last_top_sources] attribute and
      the calls made to the text generator) live in a [World] threaded by the
      monad [M];
    - the libraries the module calls (rank_bm25, numpy's argsort, FAISS, the
      sentence embedder, the chat-completion client) are parameters. *)

From Stdlib Require Import ZArith QArith Lia String.
From stdpp Require Import base decidable option list sorting gmap sets strings.

Local Open Scope Z_scope.

(** ** Exceptions and results *)

Inductive exn : Type :=
  | AssertionError
  | IndexError
  | ValueError
  | ZeroDivisionError
  | RuntimeError (code : Z)
  | KeyboardInterrupt
  | SystemExit.

(** [except Exception] catches every exception class but the ones deriving
    from [BaseException] only. *)
Definition is_Exception (e : exn) : bool :=
  match e with
  | KeyboardInterrupt | SystemExit => false
  | _ => true
  end.

Inductive result (A : Type) : Type :=
  | Ok (a : A)
  | Raise (e : exn).
Arguments Ok {A} a.
Arguments Raise {A} e.

Definition rbind {A B} (r : result A) (k : A -> result B) : result B :=
  match r with
  | Ok a => k a
  | Raise e => Raise e
  end.

(** ** Python sequences *)

Definition pystr := list N.

(** [l[i]] for a Python list: negative indices count from the end, anything
    outside [-len, len) raises IndexError. *)
Definition py_index {A} (l : list A) (i : Z) : result A :=
  let n := Z.of_nat (length l) in
  let pos := if 0 <=? i then i else n + i in
  if (0 <=? pos) && (pos <? n) then
    match l !! Z.to_nat pos with
    | Some x => Ok x
    | None => Raise IndexError
    end
  else Raise IndexError.

(** [l[:k]]: a negative bound drops [|k|] elements from the end. *)
Definition py_slice_to {A} (l : list A) (k : Z) : list A :=
  if 0 <=? k then take (Z.to_nat k) l
  else take (Z.to_nat (Z.of_nat (length l) + k)) l.

(** ** Tokenizer *)

Module Tokenizer.

Local Open Scope N_scope.

(** Characters for which [str.isspace] holds; the regex class [\s] and
    [str.split()] both use it. *)
Definition is_space (c : N) : bool :=
  ((9 <=? c) && (c <=? 13)) || ((28 <=? c) && (c <=? 32))
  || (c =? 133) || (c =? 160) || (c =? 5760)
  || ((8192 <=? c) && (c <=? 8202))
  || (c =? 8232) || (c =? 8233) || (c =? 8239) || (c =? 8287)
  || (c =? 12288).

(** [str.lower] on one code point, for the characters whose lower-case form
    the regex keeps: A-Z, the Cyrillic capitals, the Kelvin sign and the
    dotted capital I (which lowers to two code points). Every other cased
    character lowers to a character outside the kept class, so it ends as
    a space whether it is lowered or not. *)
Definition lower_char (c : N) : list N :=
  if (65 <=? c) && (c <=? 90) then [c + 32]
  else if (1040 <=? c) && (c <=? 1071) then [c + 32]
  else if c =? 1025 then [1105]
  else if c =? 8490 then [107]
  else if c =? 304 then [105; 775]
  else [c].

Definition lower (text : pystr) : pystr := concat (map lower_char text).

(** The class [а-яa-z0-9ё\s] of the regular expression. *)
Definition kept (c : N) : bool :=
  ((1072 <=? c) && (c <=? 1103))
  || ((97 <=? c) && (c <=? 122))
  || ((48 <=? c) && (c <=? 57))
  || (c =? 1105)
  || is_space c.

(** [re.sub(r"[^а-яa-z0-9ё\s]", " ", text)] *)
Definition re_sub_space (text : pystr) : pystr :=
  map (fun c => if kept c then c else 32) text.

(** [text.split()]: maximal runs of non-space characters. [cur] is the run
    being read, in reverse. *)
Fixpoint split_go (cur : pystr) (text : pystr) : list pystr :=
  match text with
  | [] => if cur is [] then [] else [reverse cur]
  | c :: rest =>
      if is_space c then
        (if cur is [] then split_go [] rest else reverse cur :: split_go [] rest)
      else split_go (c :: cur) rest
  end.

Definition split (text : pystr) : list pystr := split_go [] text.

Definition tokenize (text : pystr) : list pystr :=
  let text := lower text in
  let text := re_sub_space text in
  let tokens := split text in
  tokens.

(** ASCII punctuation ([string.punctuation]). *)
Definition is_punctuation (c : N) : bool :=
  ((33 <=? c) && (c <=? 47)) || ((58 <=? c) && (c <=? 64))
  || ((91 <=? c) && (c <=? 96)) || ((123 <=? c) && (c <=? 126)).

End Tokenizer.

Import Tokenizer.

(** "Москва-2025!!" *)
Definition moskva_2025 : pystr :=
  [1052; 1086; 1089; 1082; 1074; 1072; 45; 50; 48; 50; 53; 33; 33]%N.

(** ** Data model *)

(** One record of documents.json. An optional key is [None] when the record
    lacks it; the value of a string key that is present is JSON [null]
    ([Some None], Python's [None]) or a string. *)
Record Document : Type := {
  doc_id : Z;
  text : pystr;
  source : option (option pystr);
  file : option (option pystr);
  date : option (option pystr);
  page : option Z;
  chunk_id : option Z;
}.

(** The value of the ["_source"] key: "bm25", "semantic" or "both". *)
Inductive Provenance : Type := FromBm25 | FromSemantic | FromBoth.

Global Instance Provenance_eq_dec : EqDecision Provenance.
Proof. solve_decision. Defined.

(** A copy of a document extended with the keys ["_score"] and ["_source"]. *)
Record ScoredDoc : Type := {
  doc : Document;
  _score : Q;
  _source : Provenance;
}.

(** The dictionary built by [search] for each top source; a value [None]
    is Python's [None]. *)
Record SourceInfo : Type := {
  si_file : option pystr;
  si_source : option pystr;
  si_date : option pystr;
  si_score : Q;
}.

(** The dictionary returned by [retrieve]. *)
Record RetrieveResult : Type := {
  bm25_results : list (Z * Q);
  vector_results : list (Z * Q);
  combined_docs : list ScoredDoc;
  answer : option pystr;
}.

(** The loaded FAISS index: its size and its search, which returns the
    zipped (label, score) rows. *)
Record FaissIndex : Type := {
  ntotal : Z;
  index_search : list Q -> Z -> result (list (Z * Q));
}.

(** The attributes set by [Retriever.__init__]. *)
Record Retriever : Type := {
  docs : list Document;
  bm25_get_scores : list pystr -> list Q;
  faiss_index : FaissIndex;
  model_encode : pystr -> result (list Q);
}.

(** ** Mutable state and the computation monad *)

Record World : Type := {
  generate_calls : list (pystr * list ScoredDoc);
  last_top_sources : option (list SourceInfo);
}.

Definition M (A : Type) : Type := World -> result A * World.

Definition ret {A} (a : A) : M A := fun w => (Ok a, w).

Definition bind {A B} (m : M A) (k : A -> M B) : M B :=
  fun w =>
    match m w with
    | (Ok a, w') => k a w'
    | (Raise e, w') => (Raise e, w')
    end.

Definition lift {A} (r : result A) : M A := fun w => (r, w).

(** [try: m  except Exception as e: handler e] *)
Definition try_except {A} (m : M A) (handler : exn -> M A) : M A :=
  fun w =>
    match m w with
    | (Ok a, w') => (Ok a, w')
    | (Raise e, w') => if is_Exception e then handler e w' else (Raise e, w')
    end.

Declare Scope py_scope.
Delimit Scope py_scope with py.
Notation "'do' x <- m 'in' k" := (bind m (fun x => k))
  (at level 10, x name, m at level 100, k at level 200) : py_scope.
Notation "'try' x <- r 'in' k" := (rbind r (fun x => k))
  (at level 10, x name, r at level 100, k at level 200) : py_scope.
Local Open Scope py_scope.

(** A [for] loop whose body may raise. *)
Fixpoint for_each {A S} (body : S -> A -> result S) (st : S) (l : list A)
  : result S :=
  match l with
  | [] => Ok st
  | x :: rest => try st' <- body st x in for_each body st' rest
  end.

(** ** Loading the corpus *)

(** The loop of [_load_documents]: [assert d["id"] == i] for each entry. *)
Fixpoint check_ids (i : Z) (ds : list Document) : result unit :=
  match ds with
  | [] => Ok tt
  | d :: rest =>
      if decide (doc_id d = i) then check_ids (i + 1) rest
      else Raise AssertionError
  end.

Definition _load_documents (documents_json : list Document)
  : result (list Document) :=
  try _u <- check_ids 0 documents_json in Ok documents_json.

(** ** numpy.argsort *)

(** What [np.argsort] guarantees: a permutation of the positions along which
    the values do not decrease. The order of equal values is left open. *)
Definition score_le_at (scores : list Q) (a b : nat) : Prop :=
  (nth a scores 0 <= nth b scores 0)%Q.

Definition is_argsort (argsort : list Q -> list nat) : Prop :=
  forall scores : list Q,
    argsort scores ≡ₚ seq 0 (length scores) /\
    StronglySorted (score_le_at scores) (argsort scores).

(** An instance: insertion sort that places a position after the positions
    of equal value already placed (a stable sort, as numpy runs on short
    arrays and with [kind="stable"]). *)
Fixpoint insert_pos (scores : list Q) (i : nat) (l : list nat) : list nat :=
  match l with
  | [] => [i]
  | j :: rest =>
      if Qle_bool (nth j scores 0%Q) (nth i scores 0%Q)
      then j :: insert_pos scores i rest
      else i :: j :: rest
  end.

Definition stable_argsort (scores : list Q) : list nat :=
  foldl (fun acc i => insert_pos scores i acc) [] (seq 0 (length scores)).

(** ** The retriever *)

Definition RERANK_TOP_K : Z := 5.

(** "query: " *)
Definition query_prefix : pystr := [113; 117; 101; 114; 121; 58; 32]%N.

(** The fixed text [generate] returns for an empty document list. *)
Definition NOT_FOUND_TEXT : pystr :=
  [1053; 1077; 32; 1085; 1072; 1081; 1076; 1077; 1085; 1086; 32; 1088;
   1077; 1083; 1077; 1074; 1072; 1085; 1090; 1085; 1099; 1093; 32; 1076;
   1086; 1082; 1091; 1084; 1077; 1085; 1090; 1086; 1074; 32; 1076; 1083;
   1103; 32; 1086; 1090; 1074; 1077; 1090; 1072; 32; 1085; 1072; 32;
   1074; 1086; 1087; 1088; 1086; 1089; 46]%N.

(** [str.strip()] *)
Fixpoint lstrip (s : pystr) : pystr :=
  match s with
  | c :: rest => if is_space c then lstrip rest else s
  | [] => []
  end.

Definition strip (s : pystr) : pystr := reverse (lstrip (reverse (lstrip s))).

(** The merge loops of [retrieve] share the set [seen_ids] and the list
    [combined_docs_list]. *)
Record MergeState : Type := {
  seen_ids : gset Z;
  combined_docs_list : list ScoredDoc;
}.

(** The first loop body: a lexical hit. *)
Definition add_bm25 (docs : list Document) (st : MergeState) (hit : Z * Q)
  : result MergeState :=
  let '(idx, score) := hit in
  if decide (idx ∈ seen_ids st) then Ok st
  else
    try d <- py_index docs idx in
    Ok {| seen_ids := {[idx]} ∪ seen_ids st;
          combined_docs_list :=
            combined_docs_list st
            ++ [{| doc := d; _score := score; _source := FromBm25 |}] |}.

(** The inner loop of the [else] branch: the first entry whose ["id"] equals
    [idx] gets ["_source"] = "both", then [break]. *)
Definition set_both (d : ScoredDoc) : ScoredDoc :=
  {| doc := doc d; _score := _score d; _source := FromBoth |}.

Fixpoint mark_both (idx : Z) (l : list ScoredDoc) : list ScoredDoc :=
  match l with
  | [] => []
  | d :: rest =>
      if decide (doc_id (doc d) = idx) then set_both d :: rest
      else d :: mark_both idx rest
  end.

(** The second loop body: a semantic hit. *)
Definition add_vector (docs : list Document) (st : MergeState) (hit : Z * Q)
  : result MergeState :=
  let '(idx, score) := hit in
  if decide (idx ∈ seen_ids st) then
    Ok {| seen_ids := seen_ids st;
          combined_docs_list := mark_both idx (combined_docs_list st) |}
  else
    try d <- py_index docs idx in
    Ok {| seen_ids := {[idx]} ∪ seen_ids st;
          combined_docs_list :=
            combined_docs_list st
            ++ [{| doc := d; _score := score; _source := FromSemantic |}] |}.

(** Lines 131-159 of [retrieve]. *)
Definition merge (docs : list Document) (bm25 vector : list (Z * Q))
  : result (list ScoredDoc) :=
  try st1 <- for_each (add_bm25 docs)
               {| seen_ids := ∅; combined_docs_list := [] |} bm25 in
  try st2 <- for_each (add_vector docs) st1 vector in
  Ok (combined_docs_list st2).

(** [print_results] reads [self.docs[idx]] for every hit before printing it;
    the console output itself is not modelled. *)
Definition print_results (r : Retriever) (results : list (Z * Q))
  : result unit :=
  for_each (fun _ hit => try _d <- py_index (docs r) hit.1 in Ok tt) tt results.

Definition search_vector (r : Retriever) (query : pystr) (top_k : Z)
  : result (list (Z * Q)) :=
  try q_emb <- model_encode r (query_prefix ++ query) in
  index_search (faiss_index r) q_emb top_k.

(** [doc.get(key, "")] gives the empty string for an absent key only: a
    stored [null] is returned as it is. *)
Definition source_info (d : Document) (score : Q) : SourceInfo :=
  {| si_file := default (Some []) (file d);
     si_source := default (Some []) (source d);
     si_date := default (Some []) (date d);
     si_score := score |}.

Definition top_sources_of (r : Retriever) (hits : list (Z * Q))
  : result (list SourceInfo) :=
  for_each (fun acc hit =>
              try d <- py_index (docs r) hit.1 in
              Ok (acc ++ [source_info d hit.2]))
           [] hits.

Definition get_top_sources (w : World) : list SourceInfo :=
  default [] (last_top_sources w).

Definition set_last_top_sources (l : list SourceInfo) : M unit :=
  fun w => (Ok tt, {| generate_calls := generate_calls w;
                      last_top_sources := Some l |}).

(** The first statement of [search]:
    [primary_query.strip() if primary_query and primary_query.strip()
     else query.strip()]. *)
Definition search_query_of (query : pystr) (primary_query : option pystr)
  : pystr :=
  match primary_query with
  | Some p =>
      if negb (bool_decide (p = [])) && negb (bool_decide (strip p = []))
      then strip p else strip query
  | None => strip query
  end.

Section Engine.

(** [np.argsort] and the chat-completion request of [generate] (client
    construction, HTTP call, [.strip()] of the reply). *)
Variable argsort : list Q -> list nat.
Variable chat_completion : pystr -> list ScoredDoc -> result pystr.

Definition search_bm25 (r : Retriever) (query : pystr) (top_k : Z)
  : list (Z * Q) :=
  let q_tokens := tokenize query in
  let scores := bm25_get_scores r q_tokens in
  let top_idx := py_slice_to (reverse (argsort scores)) top_k in
  map (fun i => (Z.of_nat i, nth i scores 0%Q)) top_idx.

(** [generator.generate] with [stream=False]; every call is recorded. *)
Definition generate (query : pystr) (ds : list ScoredDoc) : M pystr :=
  fun w =>
    let w' := {| generate_calls := generate_calls w ++ [(query, ds)];
                 last_top_sources := last_top_sources w |} in
    match ds with
    | [] => (Ok NOT_FOUND_TEXT, w')
    | _ => (chat_completion query ds, w')
    end.

Definition retrieve (r : Retriever) (query : pystr) (top_k : Z)
    (mode : string) (generate_answer : bool) : M RetrieveResult :=
  do bm25_results <-
    (if decide (mode = "bm25" \/ mode = "both")%string then
       let res := search_bm25 r query top_k in
       do _u <- lift (print_results r res) in ret res
     else ret []) in
  do vector_results <-
    (if decide (mode = "vector" \/ mode = "both")%string then
       do res <- lift (search_vector r query top_k) in
       do _u <- lift (print_results r res) in ret res
     else ret []) in
  do combined_docs <- lift (merge (docs r) bm25_results vector_results) in
  do answer <-
    (if generate_answer && negb (bool_decide (combined_docs = [])) then
       try_except
         (do a <- generate query combined_docs in ret (Some a))
         (fun _ => ret None)
     else ret None) in
  ret {| bm25_results := bm25_results;
         vector_results := vector_results;
         combined_docs := combined_docs;
         answer := answer |}.

(** Lines 116-159 of [retrieve] on their own: the two searches and the
    merge, before the generation step. [retrieve_unfold] relates it to
    [retrieve]. *)
Definition search_phase (r : Retriever) (query : pystr) (top_k : Z)
    (mode : string)
  : result (list (Z * Q) * list (Z * Q) * list ScoredDoc) :=
  try b <-
    (if decide (mode = "bm25" \/ mode = "both")%string then
       let res := search_bm25 r query top_k in
       try _u <- print_results r res in Ok res
     else Ok []) in
  try v <-
    (if decide (mode = "vector" \/ mode = "both")%string then
       try res <- search_vector r query top_k in
       try _u <- print_results r res in Ok res
     else Ok []) in
  try c <- merge (docs r) b v in
  Ok (b, v, c).

Definition search (r : Retriever) (query : pystr) (top_k : Z)
    (primary_query : option pystr) : M (list ScoredDoc) :=
  let search_query := search_query_of query primary_query in
  do result <- retrieve r search_query top_k "both" false in
  do from_bm25 <-
    lift (top_sources_of r (py_slice_to (bm25_results result) 3)) in
  do from_vector <-
    lift (top_sources_of r (py_slice_to (vector_results result) 2)) in
  do _u <- set_last_top_sources (from_bm25 ++ from_vector) in
  ret (combined_docs result).

(** [Retriever.__init__]: [documents_json] is the parsed corpus file,
    [BM25Okapi] the index constructor of rank_bm25, [read_index] the
    outcome of [faiss.read_index] and [SentenceTransformer] that of loading
    the embedding model. *)
Definition Retriever_init
    (documents_json : list Document)
    (BM25Okapi : list (list pystr) -> result (list pystr -> list Q))
    (read_index : result FaissIndex)
    (SentenceTransformer : result (pystr -> result (list Q)))
  : result Retriever :=
  try ds <- _load_documents documents_json in
  let corpus_tokens := map (fun d => tokenize (text d)) ds in
  try bm25 <- BM25Okapi corpus_tokens in
  try index <- read_index in
  try model <- SentenceTransformer in
  Ok {| docs := ds; bm25_get_scores := bm25;
        faiss_index := index; model_encode := model |}.

End Engine.

(** ** Well-formedness and concrete instances *)

Definition with_answer (b v : list (Z * Q)) (c : list ScoredDoc)
    (a : option pystr) : RetrieveResult :=
  {| bm25_results := b; vector_results := v; combined_docs := c; answer := a |}.

(** The invariant [_load_documents] establishes: id = position. *)
Definition store_ok (ds : list Document) : Prop :=
  forall (i : nat) (d : Document), ds !! i = Some d -> doc_id d = Z.of_nat i.

(** The index built by rank_bm25 scores every document of the corpus. *)
Definition bm25_ok (r : Retriever) : Prop :=
  forall q, length (bm25_get_scores r q) = length (docs r).

Definition valid_hits (ds : list Document) (hits : list (Z * Q)) : Prop :=
  Forall (fun hit => 0 <= hit.1 < Z.of_nat (length ds)) hits.

(** Hits that [self.docs[idx]] accepts: an index in [-len, len). *)
Definition indexable_hits (ds : list Document) (hits : list (Z * Q)) : Prop :=
  Forall (fun hit => - Z.of_nat (length ds) <= hit.1 < Z.of_nat (length ds))
    hits.

Definition ids_of (l : list ScoredDoc) : list Z := map (fun d => doc_id (doc d)) l.

(** The order in which ids are first met along a list. *)
Definition note_id (acc : list Z) (x : Z) : list Z :=
  if decide (x ∈ acc) then acc else acc ++ [x].

Definition first_occurrences (l : list Z) : list Z := foldl note_id [] l.

(** [seen_ids] holds exactly the ids of the entries emitted so far. *)
Definition seen_matches (st : MergeState) : Prop :=
  forall z, z ∈ seen_ids st <-> z ∈ ids_of (combined_docs_list st).

(** [s] is the score of the first hit for [d] in [hits]. *)
Definition first_score (d : Z) (s : Q) (hits : list (Z * Q)) : Prop :=
  exists pre post, hits = pre ++ (d, s) :: post /\ d ∉ pre.*1.

(** [l] holds, before any other entry with id [d], an entry of score [s]
    that is marked "both" (if [both]) or not "semantic" (otherwise); the
    later entries with id [d], if any, are marked "semantic". *)
Definition holds_entry (d : Z) (s : Q) (both : bool) (l : list ScoredDoc)
  : Prop :=
  exists pre e post,
    l = pre ++ e :: post /\
    doc_id (doc e) = d /\ _score e = s /\
    (if both then _source e = FromBoth else _source e <> FromSemantic) /\
    Forall (fun x => doc_id (doc x) <> d) pre /\
    Forall (fun x => doc_id (doc x) = d -> _source x = FromSemantic) post.

(** Result lists in descending score order, and the tie rule "equal scores:
    smaller id first". *)
Definition descending (res : list (Z * Q)) : Prop :=
  StronglySorted (fun x y => (y.2 <= x.2)%Q) res.

Definition ties_by_ascending_id (res : list (Z * Q)) : Prop :=
  forall (i j : nat) a b, (i < j)%nat ->
    res !! i = Some a -> res !! j = Some b -> (a.2 == b.2)%Q -> a.1 < b.1.

Module Sample.

Definition mk_doc (i : Z) : Document :=
  {| doc_id := i; text := [100; 111; 99]%N; source := None; file := None;
     date := None; page := None; chunk_id := None |}.

Definition zero_scores (n : nat) : list pystr -> list Q :=
  fun _ => replicate n 0%Q.

(** A flat index over [n] vectors: fewer than [k] neighbours are padded
    with label -1, as FAISS does. *)
Definition flat_index (n : nat) : FaissIndex :=
  {| ntotal := Z.of_nat n;
     index_search := fun _ k =>
       if 0 <? k then
         Ok (map (fun i => (Z.of_nat i, (1 # 2)%Q)) (take (Z.to_nat k) (seq 0 n))
             ++ replicate (Z.to_nat k - n) (-1, (-1 # 1)%Q))
       else Raise AssertionError |}.

Definition corpus (n : nat) : list Document :=
  map (fun i => mk_doc (Z.of_nat i)) (seq 0 n).

Definition engine (n : nat) : Retriever :=
  {| docs := corpus n;
     bm25_get_scores := zero_scores n;
     faiss_index := flat_index n;
     model_encode := fun _ => Ok [1%Q] |}.

(** The same engine with an embedder that fails on every call. *)
Definition engine_no_embedder (n : nat) : Retriever :=
  {| docs := corpus n;
     bm25_get_scores := zero_scores n;
     faiss_index := flat_index n;
     model_encode := fun _ => Raise (RuntimeError 1) |}.

Definition w0 : World := {| generate_calls := []; last_top_sources := None |}.

Definition chat_ok : pystr -> list ScoredDoc -> result pystr :=
  fun q _ => Ok q.

Definition chat_down : pystr -> list ScoredDoc -> result pystr :=
  fun _ _ => Raise ValueError.

End Sample.

(** ** Further definitions used by the properties *)

(** The letters and digits of the tokenizer's class, without [\s]. *)
Definition is_word_char (c : N) : bool :=
  ((1072 <=? c) && (c <=? 1103))%N
  || ((97 <=? c) && (c <=? 122))%N
  || ((48 <=? c) && (c <=? 57))%N
  || (c =? 1105)%N.

(** The entry the merge emits for a hit. *)
Definition entry_of (ds : list Document) (src : Provenance) (e : ScoredDoc)
    (hit : Z * Q) : Prop :=
  ds !! Z.to_nat hit.1 = Some (doc e) /\ _score e = hit.2 /\ _source e = src.

(** The merge state once [d] is seen, every entry with id [d] satisfying
    [P]; and the state before [d] is met. *)
Definition tagged (d : Z) (P : ScoredDoc -> Prop) (st : MergeState) : Prop :=
  d ∈ seen_ids st /\
  Forall (fun x => doc_id (doc x) = d -> P x) (combined_docs_list st).

Definition unmet (d : Z) (st : MergeState) : Prop :=
  (d ∉ seen_ids st) /\
  Forall (fun x => doc_id (doc x) <> d) (combined_docs_list st).

(** An engine whose vector index holds more vectors than the corpus has
    documents. *)
Definition engine_larger_index (n extra : nat) : Retriever :=
  {| docs := Sample.corpus n;
     bm25_get_scores := Sample.zero_scores n;
     faiss_index := Sample.flat_index (n + extra);
     model_encode := fun _ => Ok [1%Q] |}.

(** [get_retriever] of retriever.py: [slot] is the module-level
    [_retriever], [construct] the outcome [Retriever()] has at the time of
    the call. *)
Definition get_retriever (construct : result Retriever)
    (slot : option Retriever) : result Retriever * option Retriever :=
  match slot with
  | None =>
      match construct with
      | Ok r => (Ok r, Some r)
      | Raise e => (Raise e, None)
      end
  | Some r => (Ok r, Some r)
  end.

(** A sequence of [get_retriever] calls, one constructor outcome per call. *)
Fixpoint get_retriever_calls (constructs : list (result Retriever))
    (slot : option Retriever) : list (result Retriever) * option Retriever :=
  match constructs with
  | [] => ([], slot)
  | c :: rest =>
      let '(out, slot1) := get_retriever c slot in
      let '(outs, slot2) := get_retriever_calls rest slot1 in
      (out :: outs, slot2)
  end.

(** The tuple [(answer, docs, top_sources, error)] of [_run_rag_task]; the
    error string [str(e)] is kept as the exception itself. *)
Record RagOutcome : Type := {
  rag_answer : option pystr;
  rag_docs : list ScoredDoc;
  rag_top_sources : list SourceInfo;
  rag_error : option exn;
}.

Definition rag_failed (e : exn) : RagOutcome :=
  {| rag_answer := None; rag_docs := []; rag_top_sources := [];
     rag_error := Some e |}.

(** [_run_rag_task] of streamlit_app.py, over the retriever slot and the
    world. [search] runs with its default [top_k]. *)
Definition _run_rag_task (argsort : list Q -> list nat)
    (chat_completion : pystr -> list ScoredDoc -> result pystr)
    (construct : result Retriever)
    (search_query primary_query original_query : pystr)
    (slot : option Retriever) (w : World)
  : result RagOutcome * (option Retriever * World) :=
  let body : result RagOutcome * (option Retriever * World) :=
    match get_retriever construct slot with
    | (Raise e, slot1) => (Raise e, (slot1, w))
    | (Ok ret, slot1) =>
        match search argsort chat_completion ret search_query RERANK_TOP_K
                (Some primary_query) w with
        | (Raise e, w1) => (Raise e, (slot1, w1))
        | (Ok ds, w1) =>
            if bool_decide (ds = []) then
              (Ok {| rag_answer := None; rag_docs := [];
                     rag_top_sources := []; rag_error := None |},
               (slot1, w1))
            else
              match generate chat_completion original_query ds w1 with
              | (Raise e, w2) => (Raise e, (slot1, w2))
              | (Ok a, w2) =>
                  (Ok {| rag_answer := Some a; rag_docs := ds;
                         rag_top_sources := get_top_sources w2;
                         rag_error := None |},
                   (slot1, w2))
              end
        end
    end in
  match body with
  | (Raise e, st) =>
      if is_Exception e then (Ok (rag_failed e), st) else (Raise e, st)
  | done => done
  end.

(** *** final_strategy_agent.py *)

Definition MAX_RAG_CHARS : Z := 6000.
Definition MAX_WEB_CHARS : Z := 1500.
Definition MAX_FUTURE_CHARS : Z := 2500.
Definition MAX_WEB_BULLETS : Z := 8.

(** [str.rstrip()] *)
Definition rstrip (s : pystr) : pystr := reverse (lstrip (reverse s)).

(** The note appended to a clipped text: two newlines, "[...сокращено...]"
    and a newline. *)
Definition CLIP_NOTE : pystr :=
  [10; 10; 91; 46; 46; 46; 1089; 1086; 1082; 1088; 1072; 1097; 1077;
   1085; 1086; 46; 46; 46; 93; 10]%N.

(** [_clip]: [text or ""] maps [None] to the empty string. *)
Definition _clip (text : option pystr) (max_chars : Z) : pystr :=
  let t := strip (default [] text) in
  if Z.of_nat (length t) <=? max_chars then t
  else rstrip (py_slice_to t (max_chars - 200)) ++ CLIP_NOTE.

(** "<!--SWOT_START-->" and "<!--SWOT_END-->" *)
Definition SWOT_START : pystr :=
  [60; 33; 45; 45; 83; 87; 79; 84; 95; 83; 84; 65; 82; 84; 45; 45; 62]%N.
Definition SWOT_END : pystr :=
  [60; 33; 45; 45; 83; 87; 79; 84; 95; 69; 78; 68; 45; 45; 62]%N.

(** [s.startswith(p)] *)
Fixpoint starts_with (p s : pystr) : bool :=
  match p, s with
  | [], _ => true
  | a :: p', b :: s' => (a =? b)%N && starts_with p' s'
  | _ :: _, [] => false
  end.

(** [s.split(sep, 1)] for a non-empty [sep]: the text before and after the
    first occurrence, or [None] when [sep] does not occur (the split then
    has one part, and [sep in s] is false). *)
Fixpoint split_once (sep s : pystr) : option (pystr * pystr) :=
  if starts_with sep s then Some ([], drop (length sep) s)
  else
    match s with
    | [] => None
    | c :: rest =>
        match split_once sep rest with
        | Some (a, b) => Some (c :: a, b)
        | None => None
        end
    end.

(** The inputs as sent to the model and kept in [raw]. *)
Record StrategyInputs : Type := {
  in_rag_summary : pystr;
  in_web_summary : pystr;
  in_web_bullets : list pystr;
  in_future_text : pystr;
}.

Record FinalStrategyResult : Type := {
  main_text : pystr;
  swot_text : pystr;
  raw : StrategyInputs;
}.

(** [build_final_strategy]. [client] is the outcome of [_client()] (it
    raises ValueError without an API key); [chat] stands for formatting the
    prompt from the clipped inputs and requesting the completion, and
    returns [message.content]. [web_bullets] is [None] when the argument is
    not a list. *)
Definition build_final_strategy (client : result unit)
    (chat : StrategyInputs -> result (option pystr))
    (rag_summary web_summary : option pystr)
    (web_bullets : option (list pystr)) (future_text : option pystr)
  : result FinalStrategyResult :=
  try _c <- client in
  let rag_summary := _clip rag_summary MAX_RAG_CHARS in
  let web_summary := _clip web_summary MAX_WEB_CHARS in
  let future_text := _clip future_text MAX_FUTURE_CHARS in
  let web_bullets :=
    match web_bullets with
    | Some l =>
        py_slice_to (filter (fun x => x <> []) (map strip l)) MAX_WEB_BULLETS
    | None => []
    end in
  let inputs :=
    {| in_rag_summary := rag_summary; in_web_summary := web_summary;
       in_web_bullets := web_bullets; in_future_text := future_text |} in
  try content <- chat inputs in
  let full_text := strip (default [] content) in
  try parts <-
    (if bool_decide (is_Some (split_once SWOT_START full_text))
        && bool_decide (is_Some (split_once SWOT_END full_text))
     then
       match split_once SWOT_START full_text with
       | Some (pre, rest) =>
           match split_once SWOT_END rest with
           | Some (swot_part, _post) => Ok (strip pre, strip swot_part)
           | None => Raise ValueError
           end
       | None => Raise ValueError
       end
     else Ok (full_text, [])) in
  Ok {| main_text := parts.1; swot_text := parts.2; raw := inputs |}.

(** Replies used as examples: "A<!--SWOT_START-->B<!--SWOT_END-->C" and a
    reply whose end marker comes before its start marker. *)
Definition reply_with_swot : pystr :=
  [65%N] ++ SWOT_START ++ [66%N] ++ SWOT_END ++ [67%N].
Definition reply_markers_swapped : pystr := SWOT_END ++ SWOT_START.

(** *** websearch_agent.py *)

(** A chat message: its role and its content. *)
Definition Message : Type := string * pystr.

(** [SessionStore.get_history]: an unknown session is registered with an
    empty history. The second component is the store afterwards. *)
Definition get_history (session_id : pystr)
    (store : gmap pystr (list Message))
  : list Message * gmap pystr (list Message) :=
  match store !! session_id with
  | Some history => (history, store)
  | None => ([], <[session_id := []]> store)
  end.

(** [SessionStore.add_message] *)
Definition add_message (session_id : pystr) (role : string) (content : pystr)
    (store : gmap pystr (list Message)) : gmap pystr (list Message) :=
  let store1 :=
    match store !! session_id with
    | Some _ => store
    | None => <[session_id := []]> store
    end in
  <[session_id := default [] (store1 !! session_id) ++ [(role, content)]]>
    store1.

(** The request of [rephrase_query]: the system prompt, the last four
    messages of the history ([history[-4:]]) and the user's query. *)
Definition rephrase_messages (REPHRASE_SYSTEM : pystr)
    (history : list Message) (user_query : pystr) : list Message :=
  [("system"%string, REPHRASE_SYSTEM)]
  ++ drop (length history - 4) history
  ++ [("user"%string, user_query)].

(** [rephrase_query] over the session store. [REPHRASE_SYSTEM] is the
    module's constant prompt, [client] the outcome of [_client()] (called
    before the [try]), [chat] the completion request, returning
    [message.content]. *)
Definition rephrase_query (REPHRASE_SYSTEM : pystr) (client : result unit)
    (chat : list Message -> result (option pystr))
    (user_query session_id : pystr) (store : gmap pystr (list Message))
  : result pystr * gmap pystr (list Message) :=
  match client with
  | Raise e => (Raise e, store)
  | Ok _ =>
      let '(history, store1) := get_history session_id store in
      let messages := rephrase_messages REPHRASE_SYSTEM history user_query in
      match chat messages with
      | Ok content =>
          let rewritten := strip (default [] content) in
          let store2 := add_message session_id "user" user_query store1 in
          let store3 := add_message session_id "assistant" rewritten store2 in
          (Ok (if bool_decide (rewritten = []) then user_query else rewritten),
           store3)
      | Raise e =>
          if is_Exception e then (Ok user_query, store1)
          else (Raise e, store1)
      end
  end.

(** *** query_enricher.py *)

(** [enrich_query]. [chat] stands for building the prompt around the
    stripped query and requesting the completion. *)
Definition enrich_query (client : result unit)
    (chat : pystr -> result (option pystr)) (original_query : pystr)
  : result pystr :=
  if bool_decide (original_query = [])
     || bool_decide (strip original_query = [])
  then Ok original_query
  else
    let body : result pystr :=
      let query_str := strip original_query in
      try _c <- client in
      try content <- chat query_str in
      let enriched := strip (default [] content) in
      if bool_decide (enriched = []) || (Z.of_nat (length enriched) <? 3)
      then Ok (strip original_query)
      else Ok (strip enriched) in
    match body with
    | Raise e => if is_Exception e then Ok (strip original_query) else Raise e
    | returned => returned
    end.

(** No character of [text.lower()] is one of the letters and digits the
    tokenizer keeps. *)
Definition wordless (text : pystr) : bool :=
  forallb (fun c => negb (is_word_char c)) (lower text).

(** "« — ! » …": Russian quotes, an em dash and an ellipsis. *)
Definition quoted_dash : pystr := [171; 32; 8212; 33; 187; 8230]%N.

(** [s] is the record lines 214-220 and 225-231 of [search] build for the
    hit [hit]. *)
Definition top_source_of (r : Retriever) (s : SourceInfo) (hit : Z * Q)
  : Prop :=
  exists d,
    py_index (docs r) hit.1 = Ok d /\
    s = {| si_file := default (Some []) (file d);
           si_source := default (Some []) (source d);
           si_date := default (Some []) (date d);
           si_score := hit.2 |}.

(** An engine whose embedder answers the query "a" only and fails on every
    other text. *)
Definition engine_flaky (n : nat) : Retriever :=
  {| docs := Sample.corpus n;
     bm25_get_scores := Sample.zero_scores n;
     faiss_index := Sample.flat_index n;
     model_encode := fun q =>
       if bool_decide (q = query_prefix ++ [97%N]) then Ok [1%Q]
       else Raise (RuntimeError 1) |}.

(** * Properties *)

(** ** Loading the corpus *)

Lemma check_ids_spec (k : Z) (ds : list Document) :
  (check_ids k ds = Ok tt /\
   forall (i : nat) d, ds !! i = Some d -> doc_id d = k + Z.of_nat i)
  \/
  (check_ids k ds = Raise AssertionError /\
   exists (i : nat) d, ds !! i = Some d /\ doc_id d <> k + Z.of_nat i).
Proof.
  revert k. induction ds as [|d ds IH]; intros k; simpl.
  - left. split; [done|]. intros i d'. by rewrite lookup_nil.
  - destruct (decide (doc_id d = k)) as [Heq|Hne].
    + destruct (IH (k + 1)) as [[Hok Hall]|[Herr (i & d' & Hl & Hd)]].
      * left. split; [done|]. intros [|i] d' Hl; simpl in Hl.
        -- injection Hl as <-. lia.
        -- apply Hall in Hl. lia.
      * right. split; [done|]. exists (S i), d'. split; [done|]. lia.
    + right. split; [done|]. exists 0%nat, d. split; [done|]. lia.
Qed.

Lemma load_documents_store_ok (ds : list Document) :
  store_ok ds -> _load_documents ds = Ok ds.
Proof.
  unfold _load_documents, store_ok. intros Hall.
  destruct (check_ids_spec 0 ds) as [[-> _]|[_ (i & d & Hl & Hd)]]; [done|].
  apply Hall in Hl. lia.
Qed.

Lemma corpus_store_ok (n : nat) : store_ok (Sample.corpus n).
Proof.
  intros i d. unfold Sample.corpus. rewrite list_lookup_fmap.
  destruct (seq 0 n !! i) as [j|] eqn:Hj; simpl; [|done].
  apply lookup_seq in Hj as [-> _]. by intros [= <-].
Qed.

(** C7. [_load_documents] checks id = position for every entry: it returns
    the corpus unchanged exactly when every entry's id is its position, and
    raises (AssertionError) exactly when some entry violates it; so in a
    loaded store the document at position [i] has id [i]. *)
Theorem load_documents_validates_positions (ds : list Document) :
  (_load_documents ds = Ok ds <-> store_ok ds) /\
  (_load_documents ds = Raise AssertionError <->
     exists (i : nat) d, ds !! i = Some d /\ doc_id d <> Z.of_nat i) /\
  (forall ds', _load_documents ds = Ok ds' -> ds' = ds /\ store_ok ds').
Proof.
  unfold _load_documents, store_ok.
  destruct (check_ids_spec 0 ds) as [[-> Hall]|[-> (i & d & Hl & Hd)]]; simpl.
  - split; [|split].
    + split; [|done]. intros _ i d Hl. apply Hall in Hl. lia.
    + split; [done|]. intros (i & d & Hl & Hd). apply Hall in Hl. lia.
    + intros ds' [= <-]. split; [done|]. intros i d Hl. apply Hall in Hl. lia.
  - split; [|split].
    + split; [done|]. intros Hall. apply Hall in Hl. lia.
    + split; [|done]. intros _. exists i, d. split; [done|lia].
    + done.
Qed.

(** A corpus with a gap (ids 0, 2) and one with a duplicate (ids 0, 0) are
    refused; the corpus with ids 0, 1 loads and keeps id = position. *)
Lemma load_documents_validates_positions_witness :
  _load_documents [Sample.mk_doc 0; Sample.mk_doc 2] = Raise AssertionError /\
  _load_documents [Sample.mk_doc 0; Sample.mk_doc 0] = Raise AssertionError /\
  store_ok (Sample.corpus 2).
Proof.
  split; [|split].
  - apply (load_documents_validates_positions [Sample.mk_doc 0; Sample.mk_doc 2]).
    exists 1%nat, (Sample.mk_doc 2). split; [reflexivity | simpl; lia].
  - apply (load_documents_validates_positions [Sample.mk_doc 0; Sample.mk_doc 0]).
    exists 1%nat, (Sample.mk_doc 0). split; [reflexivity | simpl; lia].
  - apply (load_documents_validates_positions (Sample.corpus 2)).
    reflexivity.
Defined.

(** ** The shape of [retrieve] *)

Section RetrieveFacts.

Variable argsort : list Q -> list nat.
Variable chat_completion : pystr -> list ScoredDoc -> result pystr.

Local Abbreviation Retrieve := (retrieve argsort chat_completion).
Local Abbreviation SearchPhase := (search_phase argsort).
Local Abbreviation Summarize := (generate chat_completion).

Lemma retrieve_unfold r query top_k mode g w :
  Retrieve r query top_k mode g w =
  match SearchPhase r query top_k mode with
  | Raise e => (Raise e, w)
  | Ok (b, v, c) =>
      if g && negb (bool_decide (c = [])) then
        match Summarize query c w with
        | (Ok a, w') => (Ok (with_answer b v c (Some a)), w')
        | (Raise e, w') =>
            if is_Exception e then (Ok (with_answer b v c None), w')
            else (Raise e, w')
        end
      else (Ok (with_answer b v c None), w)
  end.
Proof.
  unfold retrieve, search_phase,
    bind, lift, ret, try_except, with_answer.
  destruct (decide (mode = "bm25"%string \/ mode = "both"%string));
    destruct (decide (mode = "vector"%string \/ mode = "both"%string));
    cbn [rbind];
    repeat match goal with
      | |- context [print_results r ?l] =>
          destruct (print_results r l) as [[]|?]; cbn [rbind]; [|done]
      | |- context [search_vector r ?q ?k] =>
          destruct (search_vector r q k) as [?|?]; cbn [rbind]; [|done]
      end;
    match goal with
    | |- context [merge ?d ?b ?v] =>
        destruct (merge d b v) as [c|?]; cbn [rbind]; [|done]
    end;
    (destruct (g && _); [|done]);
    (destruct (Summarize query c w) as [[out|err] w']; cbn; [done|]);
    by destruct (is_Exception err).
Qed.

End RetrieveFacts.

(** ** Generation step *)

Section Generation.

Variable argsort : list Q -> list nat.
Variable chat_completion : pystr -> list ScoredDoc -> result pystr.

Local Abbreviation Retrieve := (retrieve argsort chat_completion).
Local Abbreviation SearchPhase := (search_phase argsort).
Local Abbreviation Summarize := (generate chat_completion).

Lemma retrieve_without_generation r query top_k mode w res0 w0 :
  Retrieve r query top_k mode false w = (Ok res0, w0) ->
  w0 = w /\
  SearchPhase r query top_k mode =
    Ok (bm25_results res0, vector_results res0, combined_docs res0) /\
  answer res0 = None.
Proof.
  rewrite retrieve_unfold.
  destruct (search_phase _ _ _ _ _) as [[[b v] c]|e]; [|done].
  simpl. by intros [= <- <-].
Qed.

Lemma generate_records_call query ds w :
  (Summarize query ds w).2 =
  {| generate_calls := generate_calls w ++ [(query, ds)];
     last_top_sources := last_top_sources w |}.
Proof. unfold generate. by destruct ds. Qed.

(** C6. With generate=true, take any run whose searches and merge succeed
    (the same call with generate=false returns [res0]). If the merged list
    is empty, [retrieve] returns [res0] itself: the answer is the fixed
    None and the world is untouched, so [generate] was not called. If the
    merged list is non-empty, [generate] is called once with the query and
    the merged list, and when it returns [a] the result is [res0] with
    answer [Some a]. *)
Theorem retrieve_generation_gate r query top_k mode w res0 w0 :
  Retrieve r query top_k mode false w = (Ok res0, w0) ->
  (combined_docs res0 = [] ->
     Retrieve r query top_k mode true w = (Ok res0, w) /\
     answer res0 = None) /\
  (combined_docs res0 <> [] ->
     forall a w',
       Summarize query (combined_docs res0) w = (Ok a, w') ->
       Retrieve r query top_k mode true w =
         (Ok (with_answer (bm25_results res0) (vector_results res0)
                (combined_docs res0) (Some a)), w') /\
       generate_calls w' =
         generate_calls w ++ [(query, combined_docs res0)]).
Proof.
  intros H0. destruct (retrieve_without_generation _ _ _ _ _ _ _ H0)
    as (-> & Hphase & Hans).
  destruct res0 as [b v c ans]; simpl in *; subst ans.
  split.
  - intros ->. split; [|done].
    rewrite retrieve_unfold, Hphase. done.
  - intros Hne a w' Hgen. split.
    + rewrite retrieve_unfold, Hphase.
      rewrite bool_decide_eq_false_2 by done. simpl. by rewrite Hgen.
    + pose proof (generate_records_call query c w) as Hrec.
      rewrite Hgen in Hrec. simpl in Hrec. by rewrite Hrec.
Qed.

(** C10. If the searches and the merge succeed with a non-empty merged
    list and the generation call raises an [Exception], [retrieve] with
    generate=true still returns: the result is the one of the same call
    without generation (same lexical, semantic and merged lists, answer
    None). *)
Theorem retrieve_generation_error_caught r query top_k mode w res0 w0 e w' :
  Retrieve r query top_k mode false w = (Ok res0, w0) ->
  combined_docs res0 <> [] ->
  Summarize query (combined_docs res0) w = (Raise e, w') ->
  is_Exception e = true ->
  Retrieve r query top_k mode true w = (Ok res0, w') /\
  answer res0 = None.
Proof.
  intros H0 Hne Hgen Hexc.
  destruct (retrieve_without_generation _ _ _ _ _ _ _ H0)
    as (-> & Hphase & Hans).
  destruct res0 as [b v c ans]; simpl in *; subst ans.
  split; [|done].
  rewrite retrieve_unfold, Hphase.
  rewrite bool_decide_eq_false_2 by done. simpl.
  by rewrite Hgen, Hexc.
Qed.

End Generation.

Lemma retrieve_generation_gate_witness :
  retrieve stable_argsort Sample.chat_ok (Sample.engine 1) [97%N] 0 "bm25"
    true Sample.w0
  = (Ok (with_answer [] [] [] None), Sample.w0) /\
  exists res w',
    retrieve stable_argsort Sample.chat_ok (Sample.engine 1) [97%N] 1 "bm25"
      true Sample.w0 = (Ok res, w') /\
    answer res = Some [97%N] /\
    length (generate_calls w') = 1%nat.
Proof.
  split.
  - apply (retrieve_generation_gate stable_argsort Sample.chat_ok
             (Sample.engine 1) [97%N] 0 "bm25" Sample.w0
             (with_answer [] [] [] None) Sample.w0); reflexivity.
  - do 2 eexists.
    destruct (retrieve_generation_gate stable_argsort Sample.chat_ok
                (Sample.engine 1) [97%N] 1 "bm25" Sample.w0 _ _ eq_refl)
      as [_ Hne].
    destruct (Hne ltac:(discriminate) _ _ eq_refl) as [Hrun Hcalls].
    split; [exact Hrun|]. split; [reflexivity|].
    rewrite Hcalls. reflexivity.
Defined.

Lemma retrieve_generation_error_caught_witness :
  exists res w',
    retrieve stable_argsort Sample.chat_down (Sample.engine 1) [97%N] 1 "bm25"
      true Sample.w0 = (Ok res, w') /\
    answer res = None /\ bm25_results res = [(0, 0%Q)].
Proof.
  do 2 eexists.
  destruct (retrieve_generation_error_caught stable_argsort Sample.chat_down
              (Sample.engine 1) [97%N] 1 "bm25" Sample.w0 _ _ ValueError _
              eq_refl ltac:(discriminate) eq_refl eq_refl) as [Hrun Hans].
  split; [exact Hrun|]. split; [exact Hans|reflexivity].
Defined.

(** ** Sorting positions by score *)

Lemma insert_pos_perm scores i l : insert_pos scores i l ≡ₚ i :: l.
Proof.
  induction l as [|j l IH]; simpl; [done|].
  destruct (Qle_bool _ _); [|done].
  rewrite IH. apply Permutation_swap.
Qed.

Lemma insert_pos_sorted scores i l :
  StronglySorted (score_le_at scores) l ->
  StronglySorted (score_le_at scores) (insert_pos scores i l).
Proof.
  induction l as [|j l IH]; simpl; intros Hs.
  - repeat constructor.
  - apply StronglySorted_cons in Hs as [Hj Hl].
    destruct (Qle_bool _ _) eqn:Hle.
    + apply StronglySorted_cons. split; [|by apply IH].
      rewrite insert_pos_perm. constructor; [|done].
      by apply Qle_bool_iff.
    + assert (score_le_at scores i j) as Hij.
      { unfold score_le_at. apply Qlt_le_weak, Qnot_le_lt.
        intros Hc. apply Qle_bool_iff in Hc. congruence. }
      apply StronglySorted_cons. split.
      * constructor; [done|].
        eapply Forall_impl; [exact Hj|]. intros b Hb.
        unfold score_le_at in *. by eapply Qle_trans.
      * by apply StronglySorted_cons.
Qed.

Lemma stable_argsort_is_argsort : is_argsort stable_argsort.
Proof.
  intros scores. unfold stable_argsort.
  assert (forall l acc,
    foldl (fun acc i => insert_pos scores i acc) acc l ≡ₚ l ++ acc /\
    (StronglySorted (score_le_at scores) acc ->
     StronglySorted (score_le_at scores)
       (foldl (fun acc i => insert_pos scores i acc) acc l))) as Hgen.
  { induction l as [|i l IH]; intros acc; simpl; [done|].
    destruct (IH (insert_pos scores i acc)) as [Hp Hs]. split.
    - rewrite Hp, insert_pos_perm. by rewrite Permutation_middle.
    - intros Hacc. by apply Hs, insert_pos_sorted. }
  destruct (Hgen (seq 0 (length scores)) []) as [Hp Hs]. split.
  - by rewrite Hp, app_nil_r.
  - apply Hs. constructor.
Qed.

(** ** Python indexing and slicing *)

Lemma py_index_nonneg {A} (l : list A) (i : Z) :
  0 <= i < Z.of_nat (length l) ->
  exists x, l !! Z.to_nat i = Some x /\ py_index l i = Ok x.
Proof.
  intros Hi. unfold py_index.
  destruct (0 <=? i) eqn:H0; [|lia].
  destruct (lookup_lt_is_Some_2 l (Z.to_nat i)) as [x Hx]; [lia|].
  exists x. split; [done|].
  rewrite Hx.
  replace (0 <=? i) with true in * by done.
  by replace (i <? Z.of_nat (length l)) with true by lia.
Qed.

Lemma py_slice_to_length {A} (l : list A) (k : Z) :
  0 <= k -> length (py_slice_to l k) = Nat.min (Z.to_nat k) (length l).
Proof.
  intros Hk. unfold py_slice_to.
  replace (0 <=? k) with true by lia. by rewrite length_take.
Qed.

Lemma py_slice_to_all {A} (l : list A) (k : Z) :
  Z.of_nat (length l) <= k -> py_slice_to l k = l.
Proof.
  intros Hk. unfold py_slice_to.
  replace (0 <=? k) with true by lia. apply take_ge. lia.
Qed.

Lemma py_slice_to_prefix {A} (l : list A) (k : Z) :
  exists m, py_slice_to l k = take m l.
Proof. unfold py_slice_to. destruct (0 <=? k); eauto. Qed.

Lemma print_results_valid r hits :
  valid_hits (docs r) hits -> print_results r hits = Ok tt.
Proof.
  unfold print_results, valid_hits.
  induction 1 as [|hit hits Hhit _ IH]; simpl; [done|].
  destruct (py_index_nonneg (docs r) hit.1 Hhit) as (x & _ & ->). simpl.
  exact IH.
Qed.

(** ** Lexical search *)

Section Lexical.

Variable argsort : list Q -> list nat.
Hypothesis argsort_ok : is_argsort argsort.

Local Abbreviation SearchBm25 := (search_bm25 argsort).

Lemma argsort_range scores i :
  i ∈ argsort scores -> (i < length scores)%nat.
Proof.
  destruct (argsort_ok scores) as [Hp _]. rewrite Hp.
  intros Hi%elem_of_seq. lia.
Qed.

Lemma argsort_length scores : length (argsort scores) = length scores.
Proof.
  destruct (argsort_ok scores) as [Hp _].
  by rewrite Hp, length_seq.
Qed.

Lemma argsort_NoDup scores : NoDup (argsort scores).
Proof.
  destruct (argsort_ok scores) as [Hp _]. rewrite Hp. apply NoDup_seq.
Qed.

Lemma rev_argsort_descending scores :
  StronglySorted (fun a b => score_le_at scores b a) (reverse (argsort scores)).
Proof.
  destruct (argsort_ok scores) as [_ Hs].
  induction Hs as [|a l Hl IH Ha]; [constructor|].
  rewrite reverse_cons.
  apply StronglySorted_app. split; [|split]; [|done|repeat constructor].
  intros x1 x2 Hx1 ->%list_elem_of_singleton.
  rewrite Forall_forall in Ha. apply Ha.
  by apply elem_of_reverse.
Qed.

Lemma take_StronglySorted {A} (R : relation A) (m : nat) (l : list A) :
  StronglySorted R l -> StronglySorted R (take m l).
Proof.
  intros Hs. rewrite <- (take_drop m l) in Hs.
  by apply StronglySorted_app_1_l in Hs.
Qed.

Lemma search_bm25_as_map r query top_k :
  exists top_idx m,
    top_idx = take m (reverse (argsort (bm25_get_scores r (tokenize query)))) /\
    top_idx = py_slice_to
                (reverse (argsort (bm25_get_scores r (tokenize query)))) top_k /\
    SearchBm25 r query top_k =
      map (fun i => (Z.of_nat i,
                     nth i (bm25_get_scores r (tokenize query)) 0%Q)) top_idx.
Proof.
  destruct (py_slice_to_prefix
              (reverse (argsort (bm25_get_scores r (tokenize query)))) top_k)
    as [m Hm].
  exists (take m (reverse (argsort (bm25_get_scores r (tokenize query))))), m.
  split; [done|]. split; [done|]. unfold search_bm25. by rewrite Hm.
Qed.

Lemma search_bm25_valid r query top_k :
  bm25_ok r -> valid_hits (docs r) (SearchBm25 r query top_k).
Proof.
  intros Hbm. destruct (search_bm25_as_map r query top_k)
    as (top & m & Htop & _ & ->).
  unfold valid_hits. rewrite Forall_fmap. apply Forall_forall.
  intros i Hi. simpl. subst top.
  apply elem_of_take in Hi as (j & Hj & _).
  apply list_elem_of_lookup_2, elem_of_reverse, argsort_range in Hj.
  rewrite Hbm in Hj. lia.
Qed.

Lemma search_bm25_descending r query top_k :
  descending (SearchBm25 r query top_k).
Proof.
  destruct (search_bm25_as_map r query top_k) as (top & m & Htop & _ & ->).
  unfold descending. subst top.
  eapply (StronglySorted_fmap _ _); [|apply take_StronglySorted,
                                        rev_argsort_descending].
  intros a b Hab. exact Hab.
Qed.

Lemma search_bm25_NoDup r query top_k :
  NoDup (SearchBm25 r query top_k).*1.
Proof.
  destruct (search_bm25_as_map r query top_k) as (top & m & Htop & _ & ->).
  rewrite <- list_fmap_compose.
  apply NoDup_fmap_2.
  - intros a b Hab. simpl in Hab. lia.
  - subst top. eapply sublist_NoDup; [|apply sublist_take].
    rewrite reverse_Permutation. apply argsort_NoDup.
Qed.

Lemma search_bm25_length r query top_k :
  bm25_ok r -> 0 <= top_k ->
  length (SearchBm25 r query top_k) =
  Nat.min (Z.to_nat top_k) (length (docs r)).
Proof.
  intros Hbm Hk. unfold search_bm25.
  by rewrite length_map, py_slice_to_length, length_reverse,
    argsort_length, Hbm.
Qed.

Lemma search_bm25_full r query top_k :
  bm25_ok r -> Z.of_nat (length (docs r)) <= top_k ->
  (SearchBm25 r query top_k).*1 ≡ₚ Z.of_nat <$> seq 0 (length (docs r)).
Proof.
  intros Hbm Hk. unfold search_bm25.
  rewrite py_slice_to_all
    by (rewrite length_reverse, argsort_length, Hbm; lia).
  rewrite <- list_fmap_compose.
  destruct (argsort_ok (bm25_get_scores r (tokenize query))) as [Hp _].
  rewrite <- Hbm with (q := tokenize query), <- Hp.
  by rewrite reverse_Permutation.
Qed.

End Lexical.

(** The ids returned are the first [top_k] positions of argsort's order
    read backwards. *)
Lemma search_bm25_ids (argsort : list Q -> list nat) (r : Retriever)
    (query : pystr) (top_k : Z) :
  0 <= top_k ->
  (search_bm25 argsort r query top_k).*1
  = Z.of_nat <$> take (Z.to_nat top_k)
                   (reverse (argsort (bm25_get_scores r (tokenize query)))).
Proof.
  intros Hk. unfold search_bm25, py_slice_to.
  replace (0 <=? top_k) with true by (symmetry; apply Z.leb_le; lia).
  rewrite <- list_fmap_compose. by apply list_fmap_ext.
Qed.

(** No document left out scores more than a document returned. *)
Lemma search_bm25_best (argsort : list Q -> list nat) (r : Retriever)
    (query : pystr) (top_k : Z) (j : nat) (hit : Z * Q) :
  is_argsort argsort -> bm25_ok r ->
  (j < length (docs r))%nat ->
  Z.of_nat j ∉ (search_bm25 argsort r query top_k).*1 ->
  hit ∈ search_bm25 argsort r query top_k ->
  (nth j (bm25_get_scores r (tokenize query)) 0 <= hit.2)%Q.
Proof.
  intros Hsort Hbm Hj Hout Hhit.
  destruct (search_bm25_as_map argsort r query top_k)
    as (top & m & Htop & _ & Hres).
  rewrite Hres in Hout, Hhit. clear Hres.
  set (scores := bm25_get_scores r (tokenize query)) in *.
  apply list_elem_of_fmap in Hhit as (i & -> & Hi). simpl.
  assert (j ∉ top) as Hjtop.
  { intros Hin. apply Hout. rewrite <- list_fmap_compose.
    apply list_elem_of_fmap. by exists j. }
  assert (j ∈ reverse (argsort scores)) as Hjall.
  { apply elem_of_reverse. destruct (Hsort scores) as [Hp _].
    rewrite Hp. apply elem_of_seq. subst scores. rewrite Hbm. lia. }
  pose proof (rev_argsort_descending argsort Hsort scores) as Hsorted.
  rewrite <- (take_drop m (reverse (argsort scores))) in Hjall, Hsorted.
  rewrite <- Htop in Hjall, Hsorted.
  apply elem_of_app in Hjall as [Hjall|Hjall]; [done|].
  exact (StronglySorted_app_1_elem_of _ _ _ _ _ Hsorted Hi Hjall).
Qed.

(** C2 (as the code has it). For every query and every k >= 0 the lexical
    query returns min(k, corpus size) results, hence at most k, in descending
    score order; each result is a valid document id paired with that
    document's score and no id is repeated; when k is at least the corpus
    size every document is ranked. The ids returned are the first k
    positions of argsort's order read backwards, so equal scores come in the
    reverse of the order argsort leaves them in; and no document left out
    scores more than a document returned. *)
Theorem search_bm25_ranking (argsort : list Q -> list nat) (r : Retriever)
    (query : pystr) (top_k : Z) :
  is_argsort argsort -> bm25_ok r -> 0 <= top_k ->
  let scores := bm25_get_scores r (tokenize query) in
  let res := search_bm25 argsort r query top_k in
  length res = Nat.min (Z.to_nat top_k) (length (docs r)) /\
  Z.of_nat (length res) <= top_k /\
  descending res /\
  NoDup res.*1 /\
  Forall (fun hit => 0 <= hit.1 < Z.of_nat (length (docs r)) /\
                     hit.2 = nth (Z.to_nat hit.1) scores 0%Q) res /\
  (Z.of_nat (length (docs r)) <= top_k ->
     length res = length (docs r) /\
     res.*1 ≡ₚ Z.of_nat <$> seq 0 (length (docs r))) /\
  res.*1 = Z.of_nat <$> take (Z.to_nat top_k) (reverse (argsort scores)) /\
  (forall (j : nat) (hit : Z * Q),
     (j < length (docs r))%nat -> Z.of_nat j ∉ res.*1 -> hit ∈ res ->
     (nth j scores 0 <= hit.2)%Q).
Proof.
  intros Hsort Hbm Hk scores res.
  assert (length res = Nat.min (Z.to_nat top_k) (length (docs r))) as Hlen
    by by apply search_bm25_length.
  split; [done|]. split; [lia|].
  split; [by apply search_bm25_descending|].
  split; [by apply search_bm25_NoDup|].
  split.
  - pose proof (search_bm25_valid argsort Hsort r query top_k Hbm) as Hvalid.
    fold res in Hvalid. unfold valid_hits in Hvalid.
    rewrite Forall_forall in Hvalid. apply Forall_forall. intros hit Hhit.
    split; [by apply Hvalid|].
    subst res. unfold search_bm25 in Hhit.
    apply list_elem_of_fmap in Hhit as (i & -> & _). simpl.
    by rewrite Nat2Z.id.
  - split; [|split].
    + intros Hall. split; [lia|]. by apply search_bm25_full.
    + by apply search_bm25_ids.
    + intros j hit Hj Hout Hhit.
      by apply (search_bm25_best argsort r query top_k j hit).
Qed.

Lemma search_bm25_ranking_witness :
  let res := search_bm25 stable_argsort (Sample.engine 3) [97%N] 2 in
  length res = 2%nat /\ descending res /\ NoDup res.*1 /\
  res.*1 = Z.of_nat <$> take 2 (reverse (stable_argsort (replicate 3 0%Q))).
Proof.
  pose proof (search_bm25_ranking stable_argsort (Sample.engine 3) [97%N] 2
                stable_argsort_is_argsort) as H.
  destruct H as (Hlen & _ & Hdesc & Hnd & _ & _ & Hids & _).
  - intros q. reflexivity.
  - lia.
  - exact (conj Hlen (conj Hdesc (conj Hnd Hids))).
Defined.

(** A negative [top_k] slices from the end: three documents, k = -1, two
    results. *)
Example search_bm25_negative_k :
  length (search_bm25 stable_argsort (Sample.engine 3) [97%N] (-1)) = 2%nat.
Proof. reflexivity. Qed.

(** C2 fails as stated: on a two-document corpus whose scores are equal
    (both 0), with a stable argsort, document 1 is returned before
    document 0. *)
Lemma search_bm25_ties_not_ascending :
  search_bm25 stable_argsort (Sample.engine 2) [97%N] 2 = [(1, 0%Q); (0, 0%Q)] /\
  ~ ties_by_ascending_id (search_bm25 stable_argsort (Sample.engine 2) [97%N] 2).
Proof.
  split; [reflexivity|].
  intros Hties.
  specialize (Hties 0%nat 1%nat (1, 0%Q) (0, 0%Q)).
  simpl in Hties.
  assert (1 < 0) as Habs; [|lia].
  apply Hties; [lia|reflexivity|reflexivity|reflexivity].
Qed.

(** ** Tokenizer *)

Example tokenize_moskva :
  tokenize moskva_2025 =
  [[1084; 1086; 1089; 1082; 1074; 1072]; [50; 48; 50; 53]]%N.
Proof. reflexivity. Qed.

Example tokenize_empty : tokenize [] = [].
Proof. reflexivity. Qed.

Lemma split_go_spaces (text : pystr) :
  Forall (fun c => is_space c = true) text -> split_go [] text = [].
Proof.
  induction 1 as [|c text Hc _ IH]; simpl; [done|]. by rewrite Hc.
Qed.

Lemma lower_char_punctuation_or_space (c : N) :
  is_punctuation c = true \/ is_space c = true -> lower_char c = [c].
Proof.
  unfold is_punctuation, is_space, lower_char.
  rewrite !orb_true_iff, !andb_true_iff, !N.leb_le, !N.eqb_eq.
  intros H.
  assert ((65 <=? c)%N && (c <=? 90)%N = false) as ->
    by (rewrite andb_false_iff, !N.leb_gt; lia).
  assert ((1040 <=? c)%N && (c <=? 1071)%N = false) as ->
    by (rewrite andb_false_iff, !N.leb_gt; lia).
  assert ((c =? 1025)%N = false) as -> by (rewrite N.eqb_neq; lia).
  assert ((c =? 8490)%N = false) as -> by (rewrite N.eqb_neq; lia).
  assert ((c =? 304)%N = false) as -> by (rewrite N.eqb_neq; lia).
  reflexivity.
Qed.

Lemma kept_punctuation (c : N) :
  is_punctuation c = true -> kept c = false.
Proof.
  unfold is_punctuation, kept, is_space.
  rewrite !orb_true_iff, !andb_true_iff, !N.leb_le.
  intros H.
  rewrite !orb_false_iff, !andb_false_iff, !N.leb_gt, !N.eqb_neq.
  lia.
Qed.

Lemma lower_punctuation (text : pystr) :
  Forall (fun c => is_punctuation c = true \/ is_space c = true) text ->
  lower text = text.
Proof.
  unfold lower. induction 1 as [|c text Hc _ IH]; simpl; [done|].
  by rewrite (lower_char_punctuation_or_space c Hc), IH.
Qed.

Lemma tokenize_punctuation (text : pystr) :
  Forall (fun c => is_punctuation c = true \/ is_space c = true) text ->
  tokenize text = [].
Proof.
  intros Hall. unfold tokenize, split. apply split_go_spaces.
  rewrite (lower_punctuation text Hall). unfold re_sub_space.
  induction Hall as [|c text Hc _ IH]; simpl; constructor; [|exact IH].
  destruct Hc as [Hp|Hs].
  - by rewrite (kept_punctuation c Hp).
  - destruct (kept c); [exact Hs | reflexivity].
Qed.

Lemma kept_word_or_space (c : N) : kept c = is_word_char c || is_space c.
Proof. reflexivity. Qed.

Lemma word_char_not_space (c : N) :
  is_word_char c = true -> is_space c = false.
Proof.
  unfold is_word_char, is_space.
  rewrite !orb_true_iff, !andb_true_iff, !N.leb_le, N.eqb_eq.
  intros H.
  rewrite !orb_false_iff, !andb_false_iff, !N.leb_gt, !N.eqb_neq.
  lia.
Qed.

Lemma split_go_nil (cur text : pystr) :
  split_go cur text = [] <->
  cur = [] /\ Forall (fun c => is_space c = true) text.
Proof.
  revert cur. induction text as [|c text IH]; intros cur; simpl.
  - destruct cur; split; try done. by intros [? _].
  - destruct (is_space c) eqn:Hc.
    + destruct cur as [|x cur].
      * rewrite IH. split.
        -- intros [_ Hall]. split; [done|]. by constructor.
        -- intros [_ Hall]. split; [done|]. by inversion Hall.
      * split; [done|]. by intros [? _].
    + rewrite IH. split; [by intros [? _]|].
      intros [_ Hall]. inversion Hall; congruence.
Qed.

(** The token sequence is empty exactly for the texts without a letter or
    digit of the kept class, once lowered. *)
Lemma tokenize_nil_iff (text : pystr) :
  tokenize text = [] <-> wordless text = true.
Proof.
  unfold tokenize, split, wordless, re_sub_space.
  rewrite split_go_nil, Forall_fmap, forallb_forall, Forall_forall.
  split.
  - intros [_ Hall] c Hc%list_elem_of_In. specialize (Hall c Hc).
    simpl in Hall. rewrite kept_word_or_space in Hall.
    destruct (is_word_char c) eqn:Hw; [|done].
    simpl in Hall. by rewrite (word_char_not_space c Hw) in Hall.
  - intros Hall. split; [done|]. intros c Hc%list_elem_of_In.
    specialize (Hall c Hc). apply negb_true_iff in Hall.
    simpl. rewrite kept_word_or_space, Hall. simpl.
    by destruct (is_space c) eqn:Hs.
Qed.

Lemma punctuation_wordless (text : pystr) :
  Forall (fun c => is_punctuation c = true \/ is_space c = true) text ->
  wordless text = true.
Proof. intros Hall. by apply tokenize_nil_iff, tokenize_punctuation. Qed.

(** C8 (as the code has it). The token sequence of an input is empty
    exactly when no character of the lowered input is a kept letter or
    digit: the empty input, blank input, ASCII punctuation and every other
    character outside the class (Russian quotes, dashes, ...). On such an
    input the lexical query does not fail and does not filter either: it
    ranks the corpus by the scores the index gives for the empty token list
    and returns the first min(k, corpus size) documents with those
    scores. *)
Theorem punctuation_query_is_ranked (argsort : list Q -> list nat)
    (r : Retriever) (text : pystr) (top_k : Z) :
  is_argsort argsort -> bm25_ok r -> 0 <= top_k ->
  (tokenize text = [] <-> wordless text = true) /\
  (Forall (fun c => is_punctuation c = true \/ is_space c = true) text ->
     wordless text = true) /\
  (wordless text = true ->
     search_bm25 argsort r text top_k =
       map (fun i => (Z.of_nat i, nth i (bm25_get_scores r []) 0%Q))
         (py_slice_to (reverse (argsort (bm25_get_scores r []))) top_k) /\
     length (search_bm25 argsort r text top_k) =
       Nat.min (Z.to_nat top_k) (length (docs r))).
Proof.
  intros Hsort Hbm Hk.
  split; [apply tokenize_nil_iff|].
  split; [apply punctuation_wordless|].
  intros Htok%tokenize_nil_iff. split.
  - unfold search_bm25. by rewrite Htok.
  - by apply search_bm25_length.
Qed.

Lemma punctuation_query_is_ranked_witness :
  wordless quoted_dash = true /\
  tokenize quoted_dash = [] /\
  search_bm25 stable_argsort (Sample.engine 3) quoted_dash 2
    = [(2, 0%Q); (1, 0%Q)].
Proof.
  pose proof (punctuation_query_is_ranked stable_argsort (Sample.engine 3)
                quoted_dash 2) as H.
  destruct H as (Htok & _ & Hres).
  - exact stable_argsort_is_argsort.
  - intros q. reflexivity.
  - lia.
  - split; [reflexivity|]. split; [by apply Htok|].
    destruct Hres as [-> _]; reflexivity.
Defined.

(** C8 fails as stated: the query "!!" has no token, yet the lexical query
    over a one-document corpus returns that document (with score 0). *)
Lemma punctuation_query_returns_documents :
  tokenize [33; 33]%N = [] /\
  search_bm25 stable_argsort (Sample.engine 1) [33; 33]%N 1 = [(0, 0%Q)] /\
  search_bm25 stable_argsort (Sample.engine 1) [33; 33]%N 1 <> [].
Proof. split; [reflexivity|]. split; [reflexivity|discriminate]. Qed.

(** ** Construction *)

(** C4 (as the code has it). Construction compares no counts: when the
    corpus passes the id = position check and the lexical index is built,
    it succeeds with the loaded vector index whatever its number of
    vectors. *)
Theorem init_ignores_vector_count (documents_json : list Document)
    (BM25Okapi : list (list pystr) -> result (list pystr -> list Q))
    (bm25 : list pystr -> list Q) (index : FaissIndex)
    (model : pystr -> result (list Q)) :
  store_ok documents_json ->
  BM25Okapi (map (fun d => tokenize (text d)) documents_json) = Ok bm25 ->
  Retriever_init documents_json BM25Okapi (Ok index) (Ok model) =
    Ok {| docs := documents_json; bm25_get_scores := bm25;
          faiss_index := index; model_encode := model |}.
Proof.
  intros Hstore Hbm. unfold Retriever_init.
  rewrite (load_documents_store_ok documents_json Hstore).
  simpl. by rewrite Hbm.
Qed.

Lemma init_ignores_vector_count_witness :
  exists r,
    Retriever_init (Sample.corpus 1) (fun _ => Ok (Sample.zero_scores 1))
      (Ok (Sample.flat_index 5)) (Ok (fun _ => Ok [1%Q])) = Ok r /\
    length (docs r) = 1%nat /\ ntotal (faiss_index r) = 5.
Proof.
  eexists. split.
  - apply (init_ignores_vector_count (Sample.corpus 1)
             (fun _ => Ok (Sample.zero_scores 1))).
    + apply corpus_store_ok.
    + reflexivity.
  - split; reflexivity.
Defined.

(** C4 fails as stated: a one-document corpus and a vector index holding two
    vectors construct an engine. *)
Lemma init_accepts_count_mismatch :
  exists r,
    Retriever_init (Sample.corpus 1) (fun _ => Ok (Sample.zero_scores 1))
      (Ok (Sample.flat_index 2)) (Ok (fun _ => Ok [1%Q])) = Ok r /\
    ntotal (faiss_index r) <> Z.of_nat (length (docs r)).
Proof. eexists. split; [reflexivity|]. simpl. lia. Qed.

(** ** Embedding failure *)

(** C5 (as the code has it). If the embedding call raises at query time and
    the mode runs the semantic search, [retrieve] does not recover: the
    same exception reaches the caller and no result (so no lexical result)
    is returned. *)
Theorem embedding_failure_propagates (argsort : list Q -> list nat)
    (chat_completion : pystr -> list ScoredDoc -> result pystr)
    (r : Retriever) (query : pystr) (top_k : Z) (mode : string)
    (generate_answer : bool) (w : World) (e : exn) :
  is_argsort argsort -> bm25_ok r ->
  mode = "vector"%string \/ mode = "both"%string ->
  model_encode r (query_prefix ++ query) = Raise e ->
  retrieve argsort chat_completion r query top_k mode generate_answer w
  = (Raise e, w).
Proof.
  intros Hsort Hbm Hmode Henc.
  rewrite retrieve_unfold. unfold search_phase.
  rewrite (print_results_valid r _
             (search_bm25_valid argsort Hsort r query top_k Hbm)).
  unfold search_vector. rewrite Henc.
  destruct (decide (mode = "bm25"%string \/ mode = "both"%string));
    destruct (decide (mode = "vector"%string \/ mode = "both"%string));
    done.
Qed.

Lemma embedding_failure_propagates_witness :
  retrieve stable_argsort Sample.chat_ok (Sample.engine_no_embedder 3)
    [97%N] 2 "both" true Sample.w0
  = (Raise (RuntimeError 1), Sample.w0).
Proof.
  apply (embedding_failure_propagates stable_argsort Sample.chat_ok
           (Sample.engine_no_embedder 3) [97%N] 2 "both" true Sample.w0
           (RuntimeError 1) stable_argsort_is_argsort).
  - intros q. reflexivity.
  - right. reflexivity.
  - reflexivity.
Defined.

(** C5 fails as stated: with an embedder that raises, [retrieve] in mode
    "both" returns no result at all, although the lexical search alone
    finds the document. *)
Lemma embedding_failure_not_recovered :
  search_bm25 stable_argsort (Sample.engine_no_embedder 1) [97%N] 1
    = [(0, 0%Q)] /\
  (retrieve stable_argsort Sample.chat_ok (Sample.engine_no_embedder 1)
     [97%N] 1 "both" false Sample.w0).1 = Raise (RuntimeError 1) /\
  ~ exists res,
      (retrieve stable_argsort Sample.chat_ok (Sample.engine_no_embedder 1)
         [97%N] 1 "both" false Sample.w0).1 = Ok res.
Proof.
  split; [reflexivity|]. split; [reflexivity|].
  intros [res Hres]. vm_compute in Hres. discriminate.
Qed.

(** ** Top sources *)

Lemma print_results_inv r hits :
  print_results r hits = Ok tt ->
  Forall (fun hit => exists d, py_index (docs r) hit.1 = Ok d) hits.
Proof.
  unfold print_results.
  induction hits as [|hit hits IH]; simpl; intros Hp; [constructor|].
  destruct (py_index (docs r) hit.1) as [d|e] eqn:Hd; simpl in Hp; [|done].
  constructor; eauto.
Qed.

Lemma top_sources_of_acc r hits acc :
  Forall (fun hit => exists d, py_index (docs r) hit.1 = Ok d) hits ->
  exists l,
    for_each (fun acc hit =>
                try d <- py_index (docs r) hit.1 in
                Ok (acc ++ [source_info d hit.2])) acc hits = Ok (acc ++ l) /\
    Forall2 (fun s hit => si_score s = hit.2) l hits.
Proof.
  intros Hall. revert acc.
  induction Hall as [|hit hits [d Hd] _ IH]; intros acc; simpl.
  - exists []. by rewrite app_nil_r.
  - rewrite Hd. simpl.
    destruct (IH (acc ++ [source_info d hit.2])) as (l & -> & Hl).
    exists (source_info d hit.2 :: l). split.
    + by rewrite <- app_assoc.
    + by constructor.
Qed.

Lemma top_sources_of_prefix r hits (m : nat) :
  print_results r hits = Ok tt ->
  exists l,
    top_sources_of r (py_slice_to hits (Z.of_nat m)) = Ok l /\
    Forall2 (fun s hit => si_score s = hit.2) l (take m hits) /\
    length l = Nat.min m (length hits).
Proof.
  intros Hp%print_results_inv.
  assert (py_slice_to hits (Z.of_nat m) = take m hits) as ->.
  { unfold py_slice_to.
    replace (0 <=? Z.of_nat m) with true by (symmetry; apply Z.leb_le; lia).
    by rewrite Nat2Z.id. }
  destruct (top_sources_of_acc r (take m hits) [])
    as (l & Hl & Hscores); [by apply Forall_take|].
  exists l. split; [exact Hl|]. split; [exact Hscores|].
  apply Forall2_length in Hscores. by rewrite Hscores, length_take.
Qed.

Lemma search_phase_both_printed argsort r query top_k b v c :
  search_phase argsort r query top_k "both" = Ok (b, v, c) ->
  print_results r b = Ok tt /\ print_results r v = Ok tt.
Proof.
  unfold search_phase.
  destruct (decide ("both" = "bm25" \/ "both" = "both")%string)
    as [_|Hn]; [|exfalso; apply Hn; by right].
  destruct (decide ("both" = "vector" \/ "both" = "both")%string)
    as [_|Hn]; [|exfalso; apply Hn; by right].
  cbn [rbind].
  destruct (print_results r (search_bm25 argsort r query top_k))
    as [[]|?] eqn:Hpb; cbn [rbind]; [|done].
  destruct (search_vector r query top_k) as [v'|?]; cbn [rbind]; [|done].
  destruct (print_results r v') as [[]|?] eqn:Hpv; cbn [rbind]; [|done].
  destruct (merge _ _ _); cbn [rbind]; [|done].
  by intros [= <- <- <-].
Qed.

Lemma top_sources_of_records_acc r hits acc :
  Forall (fun hit => exists d, py_index (docs r) hit.1 = Ok d) hits ->
  exists l,
    for_each (fun acc hit =>
                try d <- py_index (docs r) hit.1 in
                Ok (acc ++ [source_info d hit.2])) acc hits = Ok (acc ++ l) /\
    Forall2 (top_source_of r) l hits.
Proof.
  intros Hall. revert acc.
  induction Hall as [|hit hits [d Hd] _ IH]; intros acc; simpl.
  - exists []. by rewrite app_nil_r.
  - rewrite Hd. simpl.
    destruct (IH (acc ++ [source_info d hit.2])) as (l & -> & Hl).
    exists (source_info d hit.2 :: l). split.
    + by rewrite <- app_assoc.
    + constructor; [|done]. by exists d.
Qed.

Lemma top_sources_of_records r hits (m : nat) :
  print_results r hits = Ok tt ->
  exists l,
    top_sources_of r (py_slice_to hits (Z.of_nat m)) = Ok l /\
    Forall2 (top_source_of r) l (take m hits) /\
    length l = Nat.min m (length hits).
Proof.
  intros Hp%print_results_inv.
  assert (py_slice_to hits (Z.of_nat m) = take m hits) as ->.
  { unfold py_slice_to.
    replace (0 <=? Z.of_nat m) with true by (symmetry; apply Z.leb_le; lia).
    by rewrite Nat2Z.id. }
  destruct (top_sources_of_records_acc r (take m hits) [])
    as (l & Hl & Hrecords); [by apply Forall_take|].
  exists l. split; [exact Hl|]. split; [exact Hrecords|].
  apply Forall2_length in Hrecords. by rewrite Hrecords, length_take.
Qed.

(** C9 (as the code has it). A [search] call returns exactly when its
    underlying retrieval returns. When it returns, it gives the merged list
    and replaces the snapshot, whatever it held before: [get_top_sources]
    then returns the records (file, source, date, score; no origin tag) of
    the first min(3, number of lexical hits) lexical hits followed by those
    of the first min(2, number of semantic hits) semantic hits, so at most
    3 + 2 = 5 records. When it raises, it raises the retrieval's exception
    and the snapshot is not overwritten: [get_top_sources] still returns
    what it returned before the call. *)
Theorem search_top_sources (argsort : list Q -> list nat)
    (chat_completion : pystr -> list ScoredDoc -> result pystr)
    (r : Retriever) (query : pystr) (top_k : Z)
    (primary_query : option pystr) (w : World) :
  let retrieval :=
    retrieve argsort chat_completion r (search_query_of query primary_query)
      top_k "both" false w in
  match search argsort chat_completion r query top_k primary_query w with
  | (Ok ds, w') =>
      exists (res : RetrieveResult) (from_bm25 from_vector : list SourceInfo),
        retrieval = (Ok res, w) /\
        ds = combined_docs res /\
        last_top_sources w' = Some (from_bm25 ++ from_vector) /\
        generate_calls w' = generate_calls w /\
        get_top_sources w' = from_bm25 ++ from_vector /\
        Forall2 (top_source_of r) from_bm25 (take 3 (bm25_results res)) /\
        Forall2 (top_source_of r) from_vector (take 2 (vector_results res)) /\
        (length from_bm25 <= 3)%nat /\
        (length from_vector <= 2)%nat /\
        (length (get_top_sources w') <= 5)%nat
  | (Raise e, w') =>
      retrieval = (Raise e, w) /\ w' = w /\
      get_top_sources w' = get_top_sources w
  end.
Proof.
  intros retrieval. subst retrieval.
  destruct (retrieve argsort chat_completion r
              (search_query_of query primary_query) top_k "both" false w)
    as [[res|e0] w1] eqn:Hret.
  - destruct (retrieve_without_generation _ _ _ _ _ _ _ _ _ Hret)
      as (-> & Hphase & _).
    destruct (search_phase_both_printed _ _ _ _ _ _ _ Hphase) as [Hpb Hpv].
    destruct (top_sources_of_records r (bm25_results res) 3 Hpb)
      as (lb & Hlb & Hsb & Hlenb).
    destruct (top_sources_of_records r (vector_results res) 2 Hpv)
      as (lv & Hlv & Hsv & Hlenv).
    assert (search argsort chat_completion r query top_k primary_query w
            = (Ok (combined_docs res),
               {| generate_calls := generate_calls w;
                  last_top_sources := Some (lb ++ lv) |})) as ->.
    { unfold search, bind, lift, ret, set_last_top_sources.
      rewrite Hret. cbv beta iota.
      change (Z.of_nat 3) with 3 in Hlb. change (Z.of_nat 2) with 2 in Hlv.
      by rewrite Hlb, Hlv. }
    exists res, lb, lv. unfold get_top_sources. simpl.
    repeat split; try done; try lia.
    rewrite length_app. lia.
  - assert (search argsort chat_completion r query top_k primary_query w
            = (Raise e0, w1)) as ->
      by (unfold search, bind; by rewrite Hret).
    assert (w1 = w) as ->.
    { rewrite retrieve_unfold in Hret.
      destruct (search_phase argsort r _ top_k "both") as [[[b v] c]|e1];
        simpl in Hret; [done|]. by injection Hret as _ <-. }
    done.
Qed.

(** A [search] call that raises leaves the world, hence the snapshot, as
    it was. *)
Lemma search_failure_keeps_snapshot (argsort : list Q -> list nat)
    (chat_completion : pystr -> list ScoredDoc -> result pystr)
    (r : Retriever) (query : pystr) (top_k : Z)
    (primary_query : option pystr) (w w' : World) (e : exn) :
  search argsort chat_completion r query top_k primary_query w = (Raise e, w')
  -> w' = w.
Proof.
  unfold search, bind, lift, ret, set_last_top_sources.
  destruct (retrieve argsort chat_completion r
              (search_query_of query primary_query) top_k "both" false w)
    as [[res|e0] w1] eqn:Hret.
  - destruct (retrieve_without_generation _ _ _ _ _ _ _ _ _ Hret)
      as (-> & _ & _).
    destruct (top_sources_of r (py_slice_to (bm25_results res) 3));
      [|by intros [= _ <-]].
    destruct (top_sources_of r (py_slice_to (vector_results res) 2));
      [done|by intros [= _ <-]].
  - rewrite retrieve_unfold in Hret.
    destruct (search_phase argsort r _ top_k "both") as [[[b v] c]|e1];
      simpl in Hret.
    + done.
    + injection Hret as _ <-. by intros [= _ <-].
Qed.

Lemma search_top_sources_witness :
  exists ds w',
    search stable_argsort Sample.chat_ok (Sample.engine 6) [97%N] 4 None
      {| generate_calls := []; last_top_sources := Some [] |} = (Ok ds, w') /\
    length (get_top_sources w') = 5%nat /\
    (length (get_top_sources w') <= 5)%nat.
Proof.
  pose proof (search_top_sources stable_argsort Sample.chat_ok
                (Sample.engine 6) [97%N] 4 None
                {| generate_calls := []; last_top_sources := Some [] |})
    as H.
  cbv zeta in H.
  destruct (search stable_argsort Sample.chat_ok (Sample.engine 6) [97%N] 4
              None {| generate_calls := []; last_top_sources := Some [] |})
    as [[ds|e] w'] eqn:Hrun; [|vm_compute in Hrun; discriminate].
  destruct H as (res & lb & lv & _ & _ & _ & _ & _ & _ & _ & _ & _ & Hlen).
  exists ds, w'. split; [done|]. split; [|exact Hlen].
  vm_compute in Hrun. by injection Hrun as _ <-.
Defined.

(** C9 fails as stated. Two [search] calls on an engine whose embedder
    answers the first query only: the first call returns and stores five
    records; the second raises, and [get_top_sources] still returns the
    five records of the first call. *)
Lemma search_failure_stale_snapshot :
  let first :=
    search stable_argsort Sample.chat_ok (engine_flaky 6) [97%N] 4 None
      Sample.w0 in
  let second :=
    search stable_argsort Sample.chat_ok (engine_flaky 6) [98%N] 4 None
      first.2 in
  (exists ds, first.1 = Ok ds) /\
  second.1 = Raise (RuntimeError 1) /\
  get_top_sources second.2 = get_top_sources first.2 /\
  length (get_top_sources second.2) = 5%nat.
Proof.
  cbv zeta. split; [eexists; vm_compute; reflexivity|].
  split; [vm_compute; reflexivity|].
  split; vm_compute; reflexivity.
Qed.

(** ** The merge loops *)

Lemma for_each_app {A S} (body : S -> A -> result S) st (l1 l2 : list A) :
  for_each body st (l1 ++ l2) =
  try st1 <- for_each body st l1 in for_each body st1 l2.
Proof.
  revert st. induction l1 as [|x l1 IH]; intros st; simpl; [done|].
  destruct (body st x); simpl; [apply IH|done].
Qed.

Lemma for_each_invariant {A S} (body : S -> A -> result S)
    (P : A -> Prop) (I : S -> Prop) (l : list A) st st' :
  (forall st x st', P x -> I st -> body st x = Ok st' -> I st') ->
  Forall P l -> I st -> for_each body st l = Ok st' -> I st'.
Proof.
  intros Hstep Hl. revert st.
  induction Hl as [|x l Hx _ IH]; intros st HI; simpl.
  - by intros [= <-].
  - destruct (body st x) as [st1|] eqn:Hb; simpl; [|done].
    apply IH. by eapply Hstep.
Qed.

Lemma py_index_store_ok (ds : list Document) (idx : Z) :
  store_ok ds -> 0 <= idx < Z.of_nat (length ds) ->
  exists x, py_index ds idx = Ok x /\ doc_id x = idx.
Proof.
  intros Hstore Hidx.
  destruct (py_index_nonneg ds idx Hidx) as (x & Hx & Hpy).
  exists x. split; [done|]. apply Hstore in Hx. lia.
Qed.

Lemma ids_of_mark_both idx l : ids_of (mark_both idx l) = ids_of l.
Proof.
  unfold ids_of. induction l as [|x l IH]; simpl; [done|].
  destruct (decide _); simpl; [done|]. by rewrite IH.
Qed.

Lemma mark_both_Forall (P : ScoredDoc -> Prop) idx l :
  (forall x, doc_id (doc x) = idx -> P x -> P (set_both x)) ->
  Forall P l -> Forall P (mark_both idx l).
Proof.
  intros HP. induction 1 as [|x l Hx Hl IH]; simpl; [constructor|].
  destruct (decide _); constructor; auto.
Qed.

Lemma mark_both_hit d pre e post :
  Forall (fun x => doc_id (doc x) <> d) pre -> doc_id (doc e) = d ->
  mark_both d (pre ++ e :: post) = pre ++ set_both e :: post.
Proof.
  intros Hpre He. induction Hpre as [|x pre Hx _ IH]; simpl.
  - by rewrite decide_True.
  - by rewrite decide_False, IH.
Qed.

Lemma mark_both_other d s both idx l :
  idx <> d -> holds_entry d s both l -> holds_entry d s both (mark_both idx l).
Proof.
  intros Hne (pre & e & post & -> & He & Hs & Hsrc & Hpre & Hpost).
  induction Hpre as [|x pre Hx Hpre IH]; simpl.
  - rewrite decide_False by congruence.
    exists [], e, (mark_both idx post). repeat split; try done.
    apply mark_both_Forall; [|done]. intros y Hy _ Hyd.
    simpl in Hyd. congruence.
  - destruct (decide (doc_id (doc x) = idx)).
    + exists (set_both x :: pre), e, post. repeat split; try done.
      by constructor.
    + destruct IH as (pre' & e' & post' & Heq & He' & Hs' & Hsrc' & Hpre' & Hpost').
      exists (x :: pre'), e', post'. simpl. rewrite Heq.
      repeat split; try done. by constructor.
Qed.

Lemma holds_entry_snoc d s both l x :
  (doc_id (doc x) = d -> _source x = FromSemantic) ->
  holds_entry d s both l -> holds_entry d s both (l ++ [x]).
Proof.
  intros Hx (pre & e & post & -> & He & Hs & Hsrc & Hpre & Hpost).
  exists pre, e, (post ++ [x]). rewrite <- app_assoc. simpl.
  repeat split; try done. apply Forall_app. split; [done|]. by constructor.
Qed.

Lemma holds_entry_weaken d s l : holds_entry d s true l -> holds_entry d s false l.
Proof.
  intros (pre & e & post & -> & He & Hs & Hsrc & Hpre & Hpost).
  exists pre, e, post. repeat split; try done. simpl. by rewrite Hsrc.
Qed.

Lemma py_index_in_range {A} (l : list A) (i : Z) :
  - Z.of_nat (length l) <= i < Z.of_nat (length l) ->
  exists x, py_index l i = Ok x.
Proof.
  intros Hi. unfold py_index.
  set (pos := if 0 <=? i then i else Z.of_nat (length l) + i).
  assert (0 <= pos < Z.of_nat (length l)) as Hpos.
  { subst pos. destruct (Z.leb_spec 0 i); lia. }
  destruct (lookup_lt_is_Some_2 l (Z.to_nat pos)) as [x Hx]; [lia|].
  exists x. rewrite Hx.
  destruct (Z.leb_spec 0 pos); [|lia].
  destruct (Z.ltb_spec pos (Z.of_nat (length l))); [done|lia].
Qed.

Lemma for_each_total {A S} (body : S -> A -> result S)
    (P : A -> Prop) (l : list A) st :
  (forall st x, P x -> exists st', body st x = Ok st') ->
  Forall P l -> exists st', for_each body st l = Ok st'.
Proof.
  intros Hstep Hl. revert st.
  induction Hl as [|x l Hx _ IH]; intros st; simpl; [eauto|].
  destruct (Hstep st x Hx) as [st1 ->]. simpl. apply IH.
Qed.

Lemma merge_total ds bm25 vector :
  indexable_hits ds bm25 -> indexable_hits ds vector ->
  exists out, merge ds bm25 vector = Ok out.
Proof.
  intros Hb Hv. unfold merge.
  assert (forall st (hit : Z * Q),
            - Z.of_nat (length ds) <= hit.1 < Z.of_nat (length ds) ->
            exists st', add_bm25 ds st hit = Ok st') as Hstep_b.
  { intros st [idx sc] Hidx. unfold add_bm25.
    destruct (decide _); [eauto|].
    destruct (py_index_in_range ds idx Hidx) as [x ->]. simpl. eauto. }
  assert (forall st (hit : Z * Q),
            - Z.of_nat (length ds) <= hit.1 < Z.of_nat (length ds) ->
            exists st', add_vector ds st hit = Ok st') as Hstep_v.
  { intros st [idx sc] Hidx. unfold add_vector.
    destruct (decide _); [eauto|].
    destruct (py_index_in_range ds idx Hidx) as [x ->]. simpl. eauto. }
  destruct (for_each_total _ _ bm25
              {| seen_ids := ∅; combined_docs_list := [] |} Hstep_b Hb)
    as [st1 ->].
  simpl.
  destruct (for_each_total _ _ vector st1 Hstep_v Hv) as [st2 ->].
  simpl. eauto.
Qed.

Lemma valid_hits_indexable ds hits :
  valid_hits ds hits -> indexable_hits ds hits.
Proof. intros H. eapply Forall_impl; [exact H|]. intros hit. simpl. lia. Qed.

Section MergeEntry.

Variable ds : list Document.
Variable d : Z.
Variable s : Q.
Hypothesis ds_ok : store_ok ds.

Lemma add_vector_holds both st hit st' :
  d ∈ seen_ids st ->
  holds_entry d s both (combined_docs_list st) ->
  add_vector ds st hit = Ok st' ->
  d ∈ seen_ids st' /\
  holds_entry d s both (combined_docs_list st') /\
  (hit.1 = d -> holds_entry d s true (combined_docs_list st')).
Proof.
  destruct hit as [idx sc]. unfold add_vector. intros Hseen Hhold.
  destruct (decide (idx ∈ seen_ids st)) as [Hin|Hnin].
  - intros [= <-]. simpl. split; [done|].
    destruct (decide (idx = d)) as [->|Hne].
    + assert (holds_entry d s true (mark_both d (combined_docs_list st)))
        as Hboth.
      { destruct Hhold as (pre & e & post & -> & He & Hs & _ & Hpre & Hpost).
        rewrite mark_both_hit by done.
        exists pre, (set_both e), post. by repeat split. }
      split; [|done].
      destruct both; [done|by apply holds_entry_weaken].
    + split; [by apply mark_both_other|done].
  - destruct (py_index ds idx) as [x|]; simpl; [|done].
    intros [= <-]. simpl.
    assert (idx <> d) by (intros ->; done).
    split; [set_solver|]. split; [|done].
    by apply holds_entry_snoc.
Qed.

Lemma add_bm25_holds both st hit st' :
  0 <= hit.1 < Z.of_nat (length ds) ->
  d ∈ seen_ids st ->
  holds_entry d s both (combined_docs_list st) ->
  add_bm25 ds st hit = Ok st' ->
  d ∈ seen_ids st' /\ holds_entry d s both (combined_docs_list st').
Proof.
  destruct hit as [idx sc]. unfold add_bm25. simpl.
  intros Hidx Hseen Hhold.
  destruct (decide (idx ∈ seen_ids st)) as [Hin|Hnin].
  - by intros [= <-].
  - destruct (py_index_store_ok ds idx ds_ok Hidx) as (x & -> & Hx).
    simpl. intros [= Hst]. subst st'. simpl.
    assert (idx <> d) by (intros ->; done).
    split; [apply elem_of_union; by right|].
    apply holds_entry_snoc; [|done]. simpl. congruence.
Qed.

Lemma add_bm25_absent st hit st' :
  0 <= hit.1 < Z.of_nat (length ds) /\ hit.1 <> d ->
  (d ∉ seen_ids st) /\
    Forall (fun x => doc_id (doc x) <> d) (combined_docs_list st) ->
  add_bm25 ds st hit = Ok st' ->
  (d ∉ seen_ids st') /\
    Forall (fun x => doc_id (doc x) <> d) (combined_docs_list st').
Proof.
  destruct hit as [idx sc]. unfold add_bm25. simpl.
  intros [Hidx Hne] [Hseen Hall].
  destruct (decide (idx ∈ seen_ids st)) as [Hin|Hnin].
  - by intros [= <-].
  - destruct (py_index_store_ok ds idx ds_ok Hidx) as (x & -> & Hx).
    simpl. intros [= Hst]. subst st'. simpl. split.
    { rewrite not_elem_of_union, not_elem_of_singleton. split; congruence. }
    apply Forall_app. split; [done|]. constructor; [|done].
    simpl. congruence.
Qed.

Lemma add_bm25_first st st' :
  0 <= d < Z.of_nat (length ds) ->
  d ∉ seen_ids st ->
  Forall (fun x => doc_id (doc x) <> d) (combined_docs_list st) ->
  add_bm25 ds st (d, s) = Ok st' ->
  d ∈ seen_ids st' /\ holds_entry d s false (combined_docs_list st').
Proof.
  unfold add_bm25. intros Hd Hseen Hall.
  rewrite decide_False by done.
  destruct (py_index_store_ok ds d ds_ok Hd) as (x & -> & Hx).
  simpl. intros [= Hst]. subst st'. simpl.
  split; [apply elem_of_union; left; by apply elem_of_singleton|].
  eexists (combined_docs_list st), _, []. by repeat split.
Qed.

End MergeEntry.

Lemma filter_none {A} (P : A -> Prop) `{forall x, Decision (P x)} (l : list A) :
  Forall (fun x => ~ P x) l -> filter P l = [].
Proof.
  induction 1 as [|x l Hx _ IH]; [done|].
  by rewrite filter_cons_False.
Qed.

Lemma holds_entry_both_unique d s l :
  holds_entry d s true l ->
  exists e,
    filter (fun x => doc_id (doc x) = d /\ _source x = FromBoth) l = [e] /\
    _score e = s /\ doc_id (doc e) = d /\ _source e = FromBoth /\
    (NoDup (ids_of l) -> filter (fun x => doc_id (doc x) = d) l = [e]).
Proof.
  intros (pre & e & post & -> & He & Hs & Hsrc & Hpre & Hpost).
  exists e. split; [|split; [done|split; [done|split; [done|]]]].
  - rewrite filter_app, filter_cons_True by done.
    rewrite !filter_none; [done| |].
    + eapply Forall_impl; [exact Hpost|]. simpl. intros x Hx [Hxd Hxs].
      rewrite (Hx Hxd) in Hxs. discriminate.
    + eapply Forall_impl; [exact Hpre|]. simpl. intros x Hx [Hxd _]. done.
  - intros Hnd. unfold ids_of in Hnd.
    rewrite map_app in Hnd. simpl in Hnd.
    apply NoDup_app in Hnd as (_ & _ & Hnd).
    apply NoDup_cons in Hnd as [Hnin _].
    rewrite filter_app, filter_cons_True by done.
    rewrite !filter_none; [done| |].
    + apply Forall_forall. intros x Hx Hxd. apply Hnin.
      rewrite He, <- Hxd.
      by apply (list_elem_of_fmap_2 (fun x => doc_id (doc x))).
    + eapply Forall_impl; [exact Hpre|]. done.
Qed.

Lemma merge_holds_both ds bm25 vector out d s :
  store_ok ds -> valid_hits ds bm25 ->
  first_score d s bm25 -> d ∈ vector.*1 ->
  merge ds bm25 vector = Ok out ->
  holds_entry d s true out.
Proof.
  intros Hstore Hvalid (pre & post & -> & Hpre) Hvec.
  apply list_elem_of_fmap in Hvec as ([d' s'] & Hd' & Hvec).
  simpl in Hd'. subst d'.
  apply list_elem_of_split in Hvec as (vpre & vpost & ->).
  unfold merge. rewrite for_each_app. cbn [for_each rbind].
  unfold valid_hits in Hvalid.
  apply Forall_app in Hvalid as [Hvpre Hvrest].
  apply Forall_cons in Hvrest as [Hvd Hvpost]. simpl in Hvd.
  destruct (for_each (add_bm25 ds) _ pre) as [stA|] eqn:HA;
    cbn [for_each rbind]; [|done].
  destruct (add_bm25 ds stA (d, s)) as [stB|] eqn:HB;
    cbn [for_each rbind]; [|done].
  destruct (for_each (add_bm25 ds) stB post) as [st1|] eqn:H1;
    cbn [for_each rbind]; [|done].
  rewrite for_each_app. cbn [for_each rbind].
  destruct (for_each (add_vector ds) st1 vpre) as [stC|] eqn:HC;
    cbn [for_each rbind]; [|done].
  destruct (add_vector ds stC (d, s')) as [stD|] eqn:HD;
    cbn [for_each rbind]; [|done].
  destruct (for_each (add_vector ds) stD vpost) as [st2|] eqn:H2;
    cbn [for_each rbind]; [|done].
  intros [= <-].
  (* lexical hits before the first hit for [d] *)
  assert ((d ∉ seen_ids stA) /\
          Forall (fun x => doc_id (doc x) <> d) (combined_docs_list stA))
    as [HseenA HallA].
  { eapply (for_each_invariant (add_bm25 ds)
              (fun hit => 0 <= hit.1 < Z.of_nat (length ds) /\ hit.1 <> d)
              (fun st => (d ∉ seen_ids st) /\
                 Forall (fun x => doc_id (doc x) <> d) (combined_docs_list st)));
      [| |split|exact HA].
    - intros st x st'. by apply add_bm25_absent.
    - apply Forall_forall. intros hit Hhit. split.
      + rewrite Forall_forall in Hvpre. by apply Hvpre.
      + intros Heq. apply Hpre. rewrite <- Heq.
        by apply (list_elem_of_fmap_2 fst).
    - simpl. set_solver.
    - simpl. constructor. }
  (* the first hit for [d], then the remaining lexical hits *)
  destruct (add_bm25_first ds d s Hstore stA stB Hvd HseenA HallA HB)
    as [HseenB HholdB].
  assert (d ∈ seen_ids st1 /\ holds_entry d s false (combined_docs_list st1))
    as [Hseen1 Hhold1].
  { eapply (for_each_invariant (add_bm25 ds)
              (fun hit => 0 <= hit.1 < Z.of_nat (length ds))
              (fun st => d ∈ seen_ids st /\
                 holds_entry d s false (combined_docs_list st)));
      [|exact Hvpost|split; [exact HseenB|exact HholdB]|exact H1].
    intros st x st' Hx [Hs Hh]. by apply add_bm25_holds. }
  (* semantic hits up to the first one for [d] *)
  assert (d ∈ seen_ids stC /\ holds_entry d s false (combined_docs_list stC))
    as [HseenC HholdC].
  { eapply (for_each_invariant (add_vector ds) (fun _ => True)
              (fun st => d ∈ seen_ids st /\
                 holds_entry d s false (combined_docs_list st)));
      [|by apply Forall_true|split; [exact Hseen1|exact Hhold1]|exact HC].
    intros st x st' _ [Hs Hh] Hstep.
    destruct (add_vector_holds ds d s Hstore false st x st' Hs Hh Hstep)
      as (? & ? & _). done. }
  destruct (add_vector_holds ds d s Hstore false stC (d, s') stD HseenC HholdC HD)
    as (HseenD & _ & HholdD).
  specialize (HholdD eq_refl).
  (* the remaining semantic hits *)
  assert (d ∈ seen_ids st2 /\ holds_entry d s true (combined_docs_list st2))
    as [_ Hhold2].
  { eapply (for_each_invariant (add_vector ds) (fun _ => True)
              (fun st => d ∈ seen_ids st /\
                 holds_entry d s true (combined_docs_list st)));
      [|by apply Forall_true|split; [exact HseenD|exact HholdD]|exact H2].
    intros st x st' _ [Hs Hh] Hstep.
    destruct (add_vector_holds ds d s Hstore true st x st' Hs Hh Hstep)
      as (? & ? & _). done. }
  exact Hhold2.
Qed.

(** ** Merging hit lists of valid ids *)

Lemma note_id_NoDup acc l : NoDup acc -> NoDup (foldl note_id acc l).
Proof.
  revert acc. induction l as [|x l IH]; intros acc Hacc; simpl; [done|].
  apply IH. unfold note_id. destruct (decide (x ∈ acc)); [done|].
  apply NoDup_app. split; [done|]. split; [|apply NoDup_singleton].
  intros y Hy ->%list_elem_of_singleton. done.
Qed.

Lemma ids_of_snoc l x : ids_of (l ++ [x]) = ids_of l ++ [doc_id (doc x)].
Proof. unfold ids_of. by rewrite map_app. Qed.

Lemma add_bm25_ids ds st hit st' :
  store_ok ds -> 0 <= hit.1 < Z.of_nat (length ds) ->
  seen_matches st -> add_bm25 ds st hit = Ok st' ->
  seen_matches st' /\
  ids_of (combined_docs_list st')
  = note_id (ids_of (combined_docs_list st)) hit.1.
Proof.
  destruct hit as [idx sc]. unfold add_bm25, note_id. simpl.
  intros Hstore Hidx Hseen.
  destruct (decide (idx ∈ seen_ids st)) as [Hin|Hnin].
  - intros [= <-]. split; [done|].
    by rewrite decide_True by by apply Hseen.
  - destruct (py_index_store_ok ds idx Hstore Hidx) as (x & -> & Hx).
    simpl. intros [= <-]. simpl.
    rewrite decide_False by (by rewrite <- (Hseen idx)).
    rewrite ids_of_snoc. simpl. rewrite Hx. split; [|done].
    intros z. simpl. rewrite ids_of_snoc. simpl.
    rewrite elem_of_union, elem_of_singleton, elem_of_app,
      list_elem_of_singleton, (Hseen z), Hx. tauto.
Qed.

Lemma add_vector_ids ds st hit st' :
  store_ok ds -> 0 <= hit.1 < Z.of_nat (length ds) ->
  seen_matches st -> add_vector ds st hit = Ok st' ->
  seen_matches st' /\
  ids_of (combined_docs_list st')
  = note_id (ids_of (combined_docs_list st)) hit.1.
Proof.
  destruct hit as [idx sc]. unfold add_vector, note_id. simpl.
  intros Hstore Hidx Hseen.
  destruct (decide (idx ∈ seen_ids st)) as [Hin|Hnin].
  - intros [= <-]. unfold seen_matches. simpl. rewrite ids_of_mark_both.
    split; [done|]. by rewrite decide_True by by apply Hseen.
  - destruct (py_index_store_ok ds idx Hstore Hidx) as (x & -> & Hx).
    simpl. intros [= <-]. simpl.
    rewrite decide_False by (by rewrite <- (Hseen idx)).
    rewrite ids_of_snoc. simpl. rewrite Hx. split; [|done].
    intros z. simpl. rewrite ids_of_snoc. simpl.
    rewrite elem_of_union, elem_of_singleton, elem_of_app,
      list_elem_of_singleton, (Hseen z), Hx. tauto.
Qed.

Lemma for_each_ids (body : MergeState -> Z * Q -> result MergeState)
    (ds : list Document) (hits : list (Z * Q)) st st' :
  (forall st hit st', 0 <= hit.1 < Z.of_nat (length ds) ->
     seen_matches st -> body st hit = Ok st' ->
     seen_matches st' /\
     ids_of (combined_docs_list st')
     = note_id (ids_of (combined_docs_list st)) hit.1) ->
  valid_hits ds hits -> seen_matches st ->
  for_each body st hits = Ok st' ->
  seen_matches st' /\
  ids_of (combined_docs_list st')
  = foldl note_id (ids_of (combined_docs_list st)) hits.*1.
Proof.
  intros Hstep Hvalid. revert st.
  induction Hvalid as [|hit hits Hhit _ IH]; intros st Hseen; simpl.
  - by intros [= <-].
  - destruct (body st hit) as [st1|] eqn:Hb; simpl; [|done].
    destruct (Hstep st hit st1 Hhit Hseen Hb) as [Hseen1 Hids1].
    intros Hrest. destruct (IH st1 Hseen1 Hrest) as [Hseen' Hids'].
    split; [done|]. by rewrite Hids', Hids1.
Qed.

(** On hit lists of valid ids the merge returns, the ids of its output are
    the ids of the lexical list followed by those of the semantic list, each
    kept at its first occurrence, and no id is repeated. *)
Lemma merge_valid_hits_emission_order ds bm25 vector :
  store_ok ds -> valid_hits ds bm25 -> valid_hits ds vector ->
  exists out,
    merge ds bm25 vector = Ok out /\
    ids_of out = first_occurrences (bm25.*1 ++ vector.*1) /\
    NoDup (ids_of out).
Proof.
  intros Hstore Hb Hv.
  destruct (merge_total ds bm25 vector) as [out Hout];
    [by apply valid_hits_indexable..|].
  exists out. split; [done|].
  assert (ids_of out = first_occurrences (bm25.*1 ++ vector.*1)) as Hids.
  { unfold merge in Hout.
    destruct (for_each (add_bm25 ds) _ bm25) as [st1|] eqn:H1;
      cbn [rbind] in Hout; [|done].
    destruct (for_each (add_vector ds) st1 vector) as [st2|] eqn:H2;
      cbn [rbind] in Hout; [|done].
    injection Hout as <-.
    assert (seen_matches {| seen_ids := ∅; combined_docs_list := [] |})
      as Hseen0.
    { intros z. simpl. rewrite elem_of_empty, elem_of_nil. tauto. }
    destruct (for_each_ids (add_bm25 ds) ds bm25 _ _
                (fun st hit st' => add_bm25_ids ds st hit st' Hstore)
                Hb Hseen0 H1)
      as [Hseen1 Hids1].
    destruct (for_each_ids (add_vector ds) ds vector _ _
                (fun st hit st' => add_vector_ids ds st hit st' Hstore)
                Hv Hseen1 H2)
      as [_ Hids2].
    rewrite Hids2, Hids1. unfold first_occurrences.
    by rewrite foldl_app. }
  split; [done|]. rewrite Hids. unfold first_occurrences.
  apply note_id_NoDup, NoDup_nil_2.
Qed.

(** The merged list [retrieve] returns is the merge of the two hit lists it
    returns. *)
Lemma retrieve_combined_docs argsort chat_completion r query top_k mode g w
    res w' :
  retrieve argsort chat_completion r query top_k mode g w = (Ok res, w') ->
  merge (docs r) (bm25_results res) (vector_results res)
  = Ok (combined_docs res).
Proof.
  rewrite retrieve_unfold.
  destruct (search_phase argsort r query top_k mode) as [[[b v] c]|e] eqn:Hph;
    [|done].
  assert (merge (docs r) b v = Ok c) as Hmerge.
  { unfold search_phase in Hph.
    destruct (decide (mode = "bm25"%string \/ mode = "both"%string));
      destruct (decide (mode = "vector"%string \/ mode = "both"%string));
      cbn [rbind] in Hph;
      repeat match type of Hph with
        | context [print_results r ?l] =>
            destruct (print_results r l) as [[]|?]; cbn [rbind] in Hph; [|done]
        | context [search_vector r ?q ?k] =>
            destruct (search_vector r q k) as [?|?]; cbn [rbind] in Hph; [|done]
        end;
      match type of Hph with
      | context [merge ?x ?y ?z] =>
          destruct (merge x y z) as [c'|?] eqn:Hm; cbn [rbind] in Hph; [|done]
      end;
      by injection Hph as <- <- <-. }
  destruct (g && _).
  - destruct (generate chat_completion query c w) as [[a|e] w1].
    + by intros [= <- _].
    + destruct (is_Exception e); [|done]. by intros [= <- _].
  - by intros [= <- _].
Qed.

(** Let the lexical list hold valid ids and [d] occur in both lists, its
    first lexical hit having score [s]. Then the merge returns, and its
    output contains exactly one entry with id [d] and provenance "both";
    that entry carries the lexical score [s]. When the semantic list holds
    valid ids too, it is the only entry with id [d]. *)
Lemma merge_both_keeps_lexical_score (ds : list Document)
    (bm25 vector : list (Z * Q)) (d : Z) (s : Q) :
  store_ok ds -> valid_hits ds bm25 -> indexable_hits ds vector ->
  first_score d s bm25 -> d ∈ vector.*1 ->
  exists out e,
    merge ds bm25 vector = Ok out /\
    filter (fun x => doc_id (doc x) = d /\ _source x = FromBoth) out = [e] /\
    _score e = s /\ doc_id (doc e) = d /\ _source e = FromBoth /\
    (valid_hits ds vector -> filter (fun x => doc_id (doc x) = d) out = [e]).
Proof.
  intros Hstore Hb Hv Hfirst Hd.
  destruct (merge_total ds bm25 vector) as [out Hout];
    [by apply valid_hits_indexable|done|].
  pose proof (merge_holds_both ds bm25 vector out d s Hstore Hb Hfirst Hd Hout)
    as Hhold.
  destruct (holds_entry_both_unique d s out Hhold)
    as (e & Hfilter & Hs & He & Hsrc & Hunique).
  exists out, e. repeat split; try done.
  intros Hvalid. apply Hunique.
  destruct (merge_valid_hits_emission_order ds bm25 vector Hstore Hb Hvalid)
    as (out' & Hout' & _ & Hnd).
  rewrite Hout in Hout'. by injection Hout' as <-.
Qed.

Lemma merge_both_keeps_lexical_score_witness :
  exists out e,
    merge (Sample.corpus 2) [(1, (3 # 1)%Q); (0, (1 # 1)%Q)]
      [(0, (1 # 2)%Q); (1, (1 # 3)%Q)] = Ok out /\
    filter (fun x => doc_id (doc x) = 1 /\ _source x = FromBoth) out = [e] /\
    _score e = (3 # 1)%Q.
Proof.
  destruct (merge_both_keeps_lexical_score (Sample.corpus 2)
              [(1, (3 # 1)%Q); (0, (1 # 1)%Q)] [(0, (1 # 2)%Q); (1, (1 # 3)%Q)]
              1 (3 # 1)%Q)
    as (out & e & Hout & Hfilter & Hs & _).
  - apply corpus_store_ok.
  - repeat constructor; simpl; lia.
  - repeat constructor; simpl; lia.
  - exists [], [(0, (1 # 1)%Q)]. split; [reflexivity|]. apply not_elem_of_nil.
  - simpl. set_solver.
  - exists out, e. by repeat split.
Defined.

(** ** A padding label in the semantic list *)

(** C1, evaluated. One-document corpus, top_k = 2, mode "both": the vector
    index has a single neighbour and pads its answer with label -1, which
    [self.docs[-1]] reads as the last document. The merged list then holds
    document 0 twice. *)
Theorem retrieve_padding_label_duplicates :
  exists res,
    (retrieve stable_argsort Sample.chat_ok (Sample.engine 1) [97%N] 2 "both"
       false Sample.w0).1 = Ok res /\
    bm25_results res = [(0, 0%Q)] /\
    vector_results res = [(0, (1 # 2)%Q); (-1, (-1 # 1)%Q)] /\
    map _source (combined_docs res) = [FromBoth; FromSemantic] /\
    ids_of (combined_docs res) = [0; 0] /\
    ~ NoDup (ids_of (combined_docs res)).
Proof.
  eexists. split; [reflexivity|]. simpl.
  repeat split.
  intros Hnd. apply NoDup_cons in Hnd as [Hnin _].
  apply Hnin. apply list_elem_of_singleton. reflexivity.
Qed.

(** C3, evaluated. In the same call document 0 is in both hit lists, and
    the merged list holds two entries for it, not one: the first is marked
    "both" and keeps the lexical score 0; the second, read through the
    padding label -1, is marked "semantic". *)
Theorem retrieve_padding_label_second_entry :
  exists res e1 e2,
    (retrieve stable_argsort Sample.chat_ok (Sample.engine 1) [97%N] 2 "both"
       false Sample.w0).1 = Ok res /\
    filter (fun x => doc_id (doc x) = 0) (combined_docs res) = [e1; e2] /\
    0 ∈ (bm25_results res).*1 /\
    0 ∈ (vector_results res).*1 /\
    _source e1 = FromBoth /\ _score e1 = 0%Q /\
    _source e2 = FromSemantic /\
    length (filter (fun x => doc_id (doc x) = 0) (combined_docs res)) <> 1%nat.
Proof.
  eexists _, _, _. split; [reflexivity|]. split; [reflexivity|].
  simpl. split; [apply list_elem_of_here|]. split; [apply list_elem_of_here|].
  repeat split. discriminate.
Qed.

(** On an empty corpus every label is a padding label and [self.docs[-1]]
    raises: [retrieve] in mode "both" does not return. *)
Example retrieve_empty_corpus_padding :
  retrieve stable_argsort Sample.chat_ok (Sample.engine 0) [97%N] 2 "both"
    true Sample.w0
  = (Raise IndexError, Sample.w0).
Proof. reflexivity. Qed.

(** * Further properties *)

(** ** Tokens *)

Lemma re_sub_space_kept (text : pystr) :
  Forall (fun c => is_word_char c = true \/ is_space c = true)
    (re_sub_space text).
Proof.
  unfold re_sub_space. induction text as [|c text IH]; simpl; [constructor|].
  constructor; [|exact IH].
  destruct (kept c) eqn:Hk; [|by right].
  rewrite kept_word_or_space in Hk. by apply orb_true_iff in Hk.
Qed.

Lemma split_go_tokens (cur text : pystr) :
  Forall (fun c => is_word_char c = true) cur ->
  Forall (fun c => is_word_char c = true \/ is_space c = true) text ->
  Forall (fun tok => tok <> [] /\ Forall (fun c => is_word_char c = true) tok)
    (split_go cur text).
Proof.
  intros Hcur Htext. revert cur Hcur.
  induction Htext as [|c text Hc _ IH]; intros cur Hcur; simpl.
  - destruct cur as [|c0 cur]; [constructor|].
    constructor; [|constructor]. split.
    + intros Hnil. apply (f_equal length) in Hnil.
      rewrite length_reverse in Hnil. done.
    + by apply Forall_reverse.
  - destruct (is_space c) eqn:Hsp.
    + destruct cur as [|c0 cur]; [by apply IH|].
      constructor; [|by apply IH]. split.
      * intros Hnil. apply (f_equal length) in Hnil.
        rewrite length_reverse in Hnil. done.
      * by apply Forall_reverse.
    + apply IH. constructor; [|done].
      destruct Hc as [Hw|Hs]; [done|congruence].
Qed.

(** X1. Every token is non-empty and made only of the characters а-я, a-z,
    0-9 and ё: no upper-case letter, punctuation or whitespace survives. *)
Theorem tokenize_tokens_wellformed (text : pystr) :
  Forall (fun tok => tok <> [] /\ Forall (fun c => is_word_char c = true) tok)
    (tokenize text).
Proof.
  unfold tokenize, split. apply split_go_tokens; [constructor|].
  apply re_sub_space_kept.
Qed.

Lemma split_go_blank_run (cur a ws b : pystr) :
  ws <> [] -> Forall (fun c => is_space c = true) ws ->
  split_go cur (a ++ ws ++ b) = split_go cur a ++ split_go [] b.
Proof.
  intros Hne Hws. revert cur.
  induction a as [|c a IH]; intros cur; simpl.
  - destruct Hws as [|w ws Hw Hws]; [done|]. simpl. rewrite Hw.
    assert (split_go [] (ws ++ b) = split_go [] b) as ->.
    { clear Hne. induction Hws as [|w' ws Hw' _ IHws]; simpl; [done|].
      by rewrite Hw'. }
    by destruct cur.
  - destruct (is_space c); [|apply IH].
    destruct cur; by rewrite IH.
Qed.

Lemma separator_blank (c : N) :
  is_punctuation c = true \/ is_space c = true ->
  is_space (if kept c then c else 32%N) = true.
Proof.
  intros [Hp|Hs].
  - by rewrite (kept_punctuation c Hp).
  - destruct (kept c); [exact Hs|reflexivity].
Qed.

Lemma tokenize_cut (a b : pystr) (c : N) :
  is_punctuation c = true \/ is_space c = true ->
  tokenize (a ++ c :: b) = tokenize a ++ tokenize b.
Proof.
  intros Hc. unfold tokenize, split, lower, re_sub_space.
  rewrite map_app, concat_app. simpl.
  rewrite (lower_char_punctuation_or_space c Hc). simpl.
  rewrite map_app. simpl.
  apply (split_go_blank_run [] _ [_] _); [done|].
  constructor; [|constructor]. by apply separator_blank.
Qed.

(** X2. A non-empty run of ASCII punctuation marks and whitespace
    characters is a pure separator: the tokens of a text are the tokens of
    what precedes the run followed by the tokens of what follows it. *)
Theorem tokenize_separator (a seps b : pystr) :
  seps <> [] ->
  Forall (fun c => is_punctuation c = true \/ is_space c = true) seps ->
  tokenize (a ++ seps ++ b) = tokenize a ++ tokenize b.
Proof.
  intros Hne Hseps. destruct Hseps as [|c seps Hc Hseps]; [done|].
  simpl. rewrite (tokenize_cut a (seps ++ b) c Hc). f_equal.
  clear Hne Hc. induction Hseps as [|c' seps Hc' _ IH]; simpl; [done|].
  rewrite <- IH. exact (tokenize_cut [] (seps ++ b) c' Hc').
Qed.

Lemma tokenize_separator_witness :
  tokenize moskva_2025
  = tokenize [1052; 1086; 1089; 1082; 1074; 1072]%N
    ++ tokenize [50; 48; 50; 53; 33; 33]%N.
Proof.
  apply (tokenize_separator [1052; 1086; 1089; 1082; 1074; 1072]%N [45%N]
           [50; 48; 50; 53; 33; 33]%N); [done|].
  constructor; [|constructor]. left. reflexivity.
Defined.

(** ** Stripping the query *)

Lemma lstrip_split (s : pystr) :
  exists ws, s = ws ++ lstrip s /\ Forall (fun c => is_space c = true) ws.
Proof.
  induction s as [|c s (ws & Hs & Hws)]; simpl.
  - by exists [].
  - destruct (is_space c) eqn:Hc.
    + exists (c :: ws). split; [by rewrite Hs at 1|by constructor].
    + by exists [].
Qed.

Lemma strip_split (s : pystr) :
  exists ws1 ws2,
    s = ws1 ++ strip s ++ ws2 /\
    Forall (fun c => is_space c = true) ws1 /\
    Forall (fun c => is_space c = true) ws2.
Proof.
  destruct (lstrip_split s) as (ws1 & Hs & Hws1).
  destruct (lstrip_split (reverse (lstrip s))) as (ws2 & Hr & Hws2).
  exists ws1, (reverse ws2). split; [|split; [done|by apply Forall_reverse]].
  unfold strip. rewrite <- reverse_app, <- Hr, reverse_involutive. exact Hs.
Qed.

Lemma tokenize_leading_space (ws t : pystr) :
  Forall (fun c => is_space c = true) ws -> tokenize (ws ++ t) = tokenize t.
Proof.
  induction 1 as [|c ws Hc _ IH]; simpl; [done|].
  rewrite <- IH. apply (tokenize_cut [] (ws ++ t) c). by right.
Qed.

Lemma tokenize_trailing_space (t ws : pystr) :
  Forall (fun c => is_space c = true) ws -> tokenize (t ++ ws) = tokenize t.
Proof.
  intros Hws. destruct Hws as [|c ws Hc Hws]; [by rewrite app_nil_r|].
  rewrite (tokenize_cut t ws c) by by right.
  rewrite (tokenize_punctuation ws), app_nil_r; [done|].
  eapply Forall_impl; [exact Hws|]. intros x Hx. by right.
Qed.

Lemma tokenize_strip (s : pystr) : tokenize (strip s) = tokenize s.
Proof.
  destruct (strip_split s) as (ws1 & ws2 & Hs & Hws1 & Hws2).
  rewrite Hs at 2.
  by rewrite tokenize_leading_space, tokenize_trailing_space.
Qed.

(** X3. The lexical query ignores whitespace around the query text: the
    [strip()] that [search] applies to its query changes none of the lexical
    hits. *)
Theorem search_bm25_ignores_outer_whitespace (argsort : list Q -> list nat)
    (r : Retriever) (query : pystr) (top_k : Z) :
  search_bm25 argsort r (strip query) top_k = search_bm25 argsort r query top_k.
Proof. unfold search_bm25. by rewrite tokenize_strip. Qed.

(** ** Provenance and score of every merged entry *)

Lemma first_score_exists (d : Z) (hits : list (Z * Q)) :
  d ∈ hits.*1 -> exists s, first_score d s hits.
Proof.
  induction hits as [|[i sc] hits IH]; simpl; [by intros ?%elem_of_nil|].
  intros Hd. destruct (decide (i = d)) as [->|Hne].
  - exists sc, [], hits. split; [done|]. apply not_elem_of_nil.
  - apply elem_of_cons in Hd as [Heq|Hin]; [congruence|].
    destruct (IH Hin) as (s & pre & post & -> & Hpre).
    exists s, ((i, sc) :: pre), post. split; [done|].
    simpl. rewrite not_elem_of_cons. split; [congruence|done].
Qed.

Lemma add_bm25_tagged ds d P st hit st' :
  store_ok ds -> 0 <= hit.1 < Z.of_nat (length ds) ->
  tagged d P st -> add_bm25 ds st hit = Ok st' -> tagged d P st'.
Proof.
  destruct hit as [idx sc]. unfold add_bm25, tagged. simpl.
  intros ds_ok Hidx [Hseen Hall].
  destruct (decide (idx ∈ seen_ids st)) as [Hin|Hnin].
  - by intros [= <-].
  - destruct (py_index_store_ok ds idx ds_ok Hidx) as (x & -> & Hx).
    simpl. intros [= Hst]. subst st'. simpl.
    assert (idx <> d) by (intros ->; done).
    split; [apply elem_of_union; by right|].
    apply Forall_app. split; [done|]. constructor; [|done].
    simpl. congruence.
Qed.

Lemma add_vector_tagged ds d P st hit st' :
  store_ok ds -> 0 <= hit.1 < Z.of_nat (length ds) -> hit.1 <> d ->
  tagged d P st -> add_vector ds st hit = Ok st' -> tagged d P st'.
Proof.
  destruct hit as [idx sc]. unfold add_vector, tagged. simpl.
  intros ds_ok Hidx Hne [Hseen Hall].
  destruct (decide (idx ∈ seen_ids st)) as [Hin|Hnin].
  - intros [= Hst]. subst st'. simpl. split; [done|].
    apply mark_both_Forall; [|done]. intros x Hx _ Hxd.
    simpl in Hxd. congruence.
  - destruct (py_index_store_ok ds idx ds_ok Hidx) as (x & -> & Hx).
    simpl. intros [= Hst]. subst st'. simpl.
    split; [apply elem_of_union; by right|].
    apply Forall_app. split; [done|]. constructor; [|done].
    simpl. congruence.
Qed.

Lemma add_bm25_unmet ds d st hit st' :
  store_ok ds -> 0 <= hit.1 < Z.of_nat (length ds) -> hit.1 <> d ->
  unmet d st -> add_bm25 ds st hit = Ok st' -> unmet d st'.
Proof.
  intros ds_ok Hidx Hne Hun Hstep.
  exact (add_bm25_absent ds d ds_ok st hit st' (conj Hidx Hne) Hun Hstep).
Qed.

Lemma add_vector_unmet ds d st hit st' :
  store_ok ds -> 0 <= hit.1 < Z.of_nat (length ds) -> hit.1 <> d ->
  unmet d st -> add_vector ds st hit = Ok st' -> unmet d st'.
Proof.
  destruct hit as [idx sc]. unfold add_vector, unmet. simpl.
  intros ds_ok Hidx Hne [Hseen Hall].
  destruct (decide (idx ∈ seen_ids st)) as [Hin|Hnin].
  - intros [= Hst]. subst st'. simpl. split; [done|].
    apply mark_both_Forall; [|done]. intros x _ Hx. exact Hx.
  - destruct (py_index_store_ok ds idx ds_ok Hidx) as (x & -> & Hx).
    simpl. intros [= Hst]. subst st'. simpl. split.
    { rewrite not_elem_of_union, not_elem_of_singleton. split; congruence. }
    apply Forall_app. split; [done|]. constructor; [|done].
    simpl. congruence.
Qed.

Lemma add_bm25_meets ds d s st st' :
  store_ok ds -> 0 <= d < Z.of_nat (length ds) -> unmet d st ->
  add_bm25 ds st (d, s) = Ok st' ->
  tagged d (fun x => _score x = s /\ _source x = FromBm25) st'.
Proof.
  unfold add_bm25, unmet, tagged. intros ds_ok Hd [Hseen Hall].
  rewrite decide_False by done.
  destruct (py_index_store_ok ds d ds_ok Hd) as (x & -> & Hx).
  simpl. intros [= Hst]. subst st'. simpl.
  split; [apply elem_of_union; left; by apply elem_of_singleton|].
  apply Forall_app. split.
  - eapply Forall_impl; [exact Hall|]. intros y Hy Hyd. done.
  - constructor; [|done]. done.
Qed.

Lemma add_vector_meets ds d s st st' :
  store_ok ds -> 0 <= d < Z.of_nat (length ds) -> unmet d st ->
  add_vector ds st (d, s) = Ok st' ->
  tagged d (fun x => _score x = s /\ _source x = FromSemantic) st'.
Proof.
  unfold add_vector, unmet, tagged. intros ds_ok Hd [Hseen Hall].
  rewrite decide_False by done.
  destruct (py_index_store_ok ds d ds_ok Hd) as (x & -> & Hx).
  simpl. intros [= Hst]. subst st'. simpl.
  split; [apply elem_of_union; left; by apply elem_of_singleton|].
  apply Forall_app. split.
  - eapply Forall_impl; [exact Hall|]. intros y Hy Hyd. done.
  - constructor; [|done]. done.
Qed.

Lemma hits_other (ds : list Document) (d : Z) (hits : list (Z * Q)) :
  valid_hits ds hits -> d ∉ hits.*1 ->
  Forall (fun hit => 0 <= hit.1 < Z.of_nat (length ds) /\ hit.1 <> d) hits.
Proof.
  intros Hvalid Hd. apply Forall_forall. intros hit Hhit. split.
  - unfold valid_hits in Hvalid. rewrite Forall_forall in Hvalid.
    by apply Hvalid.
  - intros Heq. apply Hd. rewrite <- Heq. by apply (list_elem_of_fmap_2 fst).
Qed.

Lemma unmet_initial d : unmet d {| seen_ids := ∅; combined_docs_list := [] |}.
Proof. split; simpl; [apply not_elem_of_empty|constructor]. Qed.

Lemma merge_lexical_only ds bm25 vector out d s :
  store_ok ds -> valid_hits ds bm25 -> valid_hits ds vector ->
  first_score d s bm25 -> d ∉ vector.*1 ->
  merge ds bm25 vector = Ok out ->
  Forall (fun x => doc_id (doc x) = d -> _score x = s /\ _source x = FromBm25)
    out.
Proof.
  intros Hstore Hb Hv (pre & post & -> & Hpre) Hvec.
  unfold merge. rewrite for_each_app. cbn [for_each rbind].
  unfold valid_hits in Hb.
  apply Forall_app in Hb as [Hbpre Hbrest].
  apply Forall_cons in Hbrest as [Hbd Hbpost]. simpl in Hbd.
  destruct (for_each (add_bm25 ds) _ pre) as [stA|] eqn:HA;
    cbn [for_each rbind]; [|done].
  destruct (add_bm25 ds stA (d, s)) as [stB|] eqn:HB;
    cbn [for_each rbind]; [|done].
  destruct (for_each (add_bm25 ds) stB post) as [st1|] eqn:H1;
    cbn [for_each rbind]; [|done].
  destruct (for_each (add_vector ds) st1 vector) as [st2|] eqn:H2;
    cbn [for_each rbind]; [|done].
  intros [= <-].
  assert (unmet d stA) as HunA.
  { eapply (for_each_invariant (add_bm25 ds) _ (unmet d));
      [|exact (hits_other ds d pre Hbpre Hpre)|apply unmet_initial|exact HA].
    intros st x st' [Hx Hne]. by apply add_bm25_unmet. }
  pose proof (add_bm25_meets ds d s stA stB Hstore Hbd HunA HB) as HtB.
  assert (tagged d (fun x => _score x = s /\ _source x = FromBm25) st1)
    as Ht1.
  { eapply (for_each_invariant (add_bm25 ds) _
              (tagged d (fun x => _score x = s /\ _source x = FromBm25)));
      [|exact Hbpost|exact HtB|exact H1].
    intros st x st' Hx. by apply add_bm25_tagged. }
  assert (tagged d (fun x => _score x = s /\ _source x = FromBm25) st2)
    as [_ Ht2].
  { eapply (for_each_invariant (add_vector ds) _
              (tagged d (fun x => _score x = s /\ _source x = FromBm25)));
      [|exact (hits_other ds d vector Hv Hvec)|exact Ht1|exact H2].
    intros st x st' [Hx Hne]. by apply add_vector_tagged. }
  exact Ht2.
Qed.

Lemma merge_semantic_only ds bm25 vector out d s :
  store_ok ds -> valid_hits ds bm25 -> valid_hits ds vector ->
  NoDup vector.*1 -> d ∉ bm25.*1 -> first_score d s vector ->
  merge ds bm25 vector = Ok out ->
  Forall (fun x => doc_id (doc x) = d ->
                   _score x = s /\ _source x = FromSemantic) out.
Proof.
  intros Hstore Hb Hv Hnd Hbm (vpre & vpost & -> & Hvpre).
  assert (d ∉ vpost.*1) as Hvpost.
  { rewrite fmap_app in Hnd. simpl in Hnd.
    apply NoDup_app in Hnd as (_ & _ & Hnd).
    by apply NoDup_cons in Hnd as [Hnin _]. }
  unfold merge.
  unfold valid_hits in Hv.
  apply Forall_app in Hv as [Hv_pre Hv_rest].
  apply Forall_cons in Hv_rest as [Hvd Hv_post]. simpl in Hvd.
  destruct (for_each (add_bm25 ds) _ bm25) as [st1|] eqn:H1;
    cbn [rbind]; [|done].
  rewrite for_each_app. cbn [for_each rbind].
  destruct (for_each (add_vector ds) st1 vpre) as [stC|] eqn:HC;
    cbn [for_each rbind]; [|done].
  destruct (add_vector ds stC (d, s)) as [stD|] eqn:HD;
    cbn [for_each rbind]; [|done].
  destruct (for_each (add_vector ds) stD vpost) as [st2|] eqn:H2;
    cbn [for_each rbind]; [|done].
  intros [= <-].
  assert (unmet d st1) as Hun1.
  { eapply (for_each_invariant (add_bm25 ds) _ (unmet d));
      [|exact (hits_other ds d bm25 Hb Hbm)|apply unmet_initial|exact H1].
    intros st x st' [Hx Hne]. by apply add_bm25_unmet. }
  assert (unmet d stC) as HunC.
  { eapply (for_each_invariant (add_vector ds) _ (unmet d));
      [|exact (hits_other ds d vpre Hv_pre Hvpre)|exact Hun1|exact HC].
    intros st x st' [Hx Hne]. by apply add_vector_unmet. }
  pose proof (add_vector_meets ds d s stC stD Hstore Hvd HunC HD) as HtD.
  assert (tagged d (fun x => _score x = s /\ _source x = FromSemantic) st2)
    as [_ Ht2].
  { eapply (for_each_invariant (add_vector ds) _
              (tagged d (fun x => _score x = s /\ _source x = FromSemantic)));
      [|exact (hits_other ds d vpost Hv_post Hvpost)|exact HtD|exact H2].
    intros st x st' [Hx Hne]. by apply add_vector_tagged. }
  exact Ht2.
Qed.

Lemma py_index_lookup {A} (l : list A) (i : Z) (x : A) :
  py_index l i = Ok x -> exists k : nat, l !! k = Some x.
Proof.
  unfold py_index. destruct (_ && _); [|done].
  destruct (l !! _) as [y|] eqn:Hy; [|done]. intros [= <-]. eauto.
Qed.

Lemma py_index_own_position ds idx x :
  store_ok ds -> py_index ds idx = Ok x ->
  ds !! Z.to_nat (doc_id x) = Some x.
Proof.
  intros Hstore [k Hk]%py_index_lookup.
  rewrite (Hstore k x Hk). by rewrite Nat2Z.id.
Qed.

Lemma merge_entries_from_corpus ds bm25 vector out :
  store_ok ds -> merge ds bm25 vector = Ok out ->
  Forall (fun e => ds !! Z.to_nat (doc_id (doc e)) = Some (doc e)) out.
Proof.
  intros Hstore. unfold merge.
  destruct (for_each (add_bm25 ds) _ bm25) as [st1|] eqn:H1;
    cbn [rbind]; [|done].
  destruct (for_each (add_vector ds) st1 vector) as [st2|] eqn:H2;
    cbn [rbind]; [|done].
  intros [= <-].
  set (I := fun st : MergeState =>
              Forall (fun e => ds !! Z.to_nat (doc_id (doc e)) = Some (doc e))
                (combined_docs_list st)).
  assert (I st1) as HI1.
  { eapply (for_each_invariant (add_bm25 ds) (fun _ => True) I bm25
              {| seen_ids := ∅; combined_docs_list := [] |});
      [|by apply Forall_true|unfold I; simpl; constructor|exact H1].
    intros st [idx sc] st' _ HI. unfold add_bm25.
    destruct (decide _); [by intros [= <-]|].
    destruct (py_index ds idx) as [x|] eqn:Hx; simpl; [|done].
    intros [= <-]. unfold I. simpl. apply Forall_app. split; [done|].
    constructor; [|done]. simpl. by eapply py_index_own_position. }
  eapply (for_each_invariant (add_vector ds) (fun _ => True) I);
    [|by apply Forall_true|exact HI1|exact H2].
  intros st [idx sc] st' _ HI. unfold add_vector.
  destruct (decide _).
  - intros [= <-]. unfold I. simpl. by apply mark_both_Forall.
  - destruct (py_index ds idx) as [x|] eqn:Hx; simpl; [|done].
    intros [= <-]. unfold I. simpl. apply Forall_app. split; [done|].
    constructor; [|done]. simpl. by eapply py_index_own_position.
Qed.

Lemma holds_entry_NoDup d s both out e :
  holds_entry d s both out -> NoDup (ids_of out) ->
  e ∈ out -> doc_id (doc e) = d ->
  _score e = s /\
  (if both then _source e = FromBoth else _source e <> FromSemantic).
Proof.
  intros (pre & e0 & post & -> & He0 & Hs & Hsrc & Hpre & Hpost) Hnd He Hd.
  apply elem_of_app in He as [He|He].
  { rewrite Forall_forall in Hpre. by destruct (Hpre e He). }
  apply elem_of_cons in He as [->|He]; [done|].
  exfalso. unfold ids_of in Hnd. rewrite map_app in Hnd. simpl in Hnd.
  apply NoDup_app in Hnd as (_ & _ & Hnd).
  apply NoDup_cons in Hnd as [Hnin _]. apply Hnin.
  rewrite He0, <- Hd.
  by apply (list_elem_of_fmap_2 (fun x => doc_id (doc x))).
Qed.

Lemma note_id_subset acc l x :
  x ∈ foldl note_id acc l -> x ∈ acc \/ x ∈ l.
Proof.
  revert acc. induction l as [|y l IH]; intros acc; simpl; [by left|].
  intros [Hx|Hx]%IH.
  - unfold note_id in Hx. destruct (decide (y ∈ acc)); [by left|].
    apply elem_of_app in Hx as [Hx|Hx%list_elem_of_singleton]; [by left|].
    right. subst. apply elem_of_cons. by left.
  - right. apply elem_of_cons. by right.
Qed.

(** X4. For lists of valid ids, with no id repeated in the semantic list,
    the merge returns one entry per id in emission order, and each entry is
    the corpus document of that id with: for an id of the lexical list, its
    first lexical score and provenance "both" if the id is in the semantic
    list too, "bm25" otherwise; for any other id, its semantic score and
    provenance "semantic". *)
Theorem merge_provenance (ds : list Document) (bm25 vector : list (Z * Q)) :
  store_ok ds -> valid_hits ds bm25 -> valid_hits ds vector ->
  NoDup vector.*1 ->
  exists out,
    merge ds bm25 vector = Ok out /\
    ids_of out = first_occurrences (bm25.*1 ++ vector.*1) /\
    Forall (fun e =>
      let d := doc_id (doc e) in
      ds !! Z.to_nat d = Some (doc e) /\
      (d ∈ bm25.*1 ->
         exists s, first_score d s bm25 /\ _score e = s /\
           _source e = if decide (d ∈ vector.*1) then FromBoth else FromBm25) /\
      (d ∉ bm25.*1 ->
         exists s, first_score d s vector /\ _score e = s /\
           _source e = FromSemantic)) out.
Proof.
  intros Hstore Hb Hv Hnd.
  destruct (merge_valid_hits_emission_order ds bm25 vector Hstore Hb Hv)
    as (out & Hout & Hids & Hnodup).
  exists out. split; [done|]. split; [done|].
  pose proof (merge_entries_from_corpus ds bm25 vector out Hstore Hout)
    as Hdocs.
  rewrite Forall_forall in Hdocs.
  apply Forall_forall. intros e He. simpl.
  split; [by apply Hdocs|]. split.
  - intros Hin. destruct (first_score_exists _ _ Hin) as [s Hs].
    exists s. split; [done|].
    destruct (decide (doc_id (doc e) ∈ vector.*1)) as [Hvin|Hvnin].
    + pose proof (merge_holds_both ds bm25 vector out _ s Hstore Hb Hs
                    Hvin Hout) as Hhold.
      exact (holds_entry_NoDup _ s true out e Hhold Hnodup He eq_refl).
    + pose proof (merge_lexical_only ds bm25 vector out _ s Hstore Hb Hv
                    Hs Hvnin Hout) as Hall.
      rewrite Forall_forall in Hall. by apply Hall.
  - intros Hnin.
    assert (doc_id (doc e) ∈ vector.*1) as Hvin.
    { assert (doc_id (doc e) ∈ ids_of out) as Hid
        by by apply (list_elem_of_fmap_2 (fun x => doc_id (doc x))).
      rewrite Hids in Hid. unfold first_occurrences in Hid.
      apply note_id_subset in Hid as [Hid|Hid]; [by apply elem_of_nil in Hid|].
      apply elem_of_app in Hid as [Hid|Hid]; done. }
    destruct (first_score_exists _ _ Hvin) as [s Hs].
    exists s. split; [done|].
    pose proof (merge_semantic_only ds bm25 vector out _ s Hstore Hb Hv Hnd
                  Hnin Hs Hout) as Hall.
    rewrite Forall_forall in Hall. by apply Hall.
Qed.

Lemma merge_provenance_witness :
  exists out,
    merge (Sample.corpus 3) [(2, (5 # 1)%Q); (0, (4 # 1)%Q)]
      [(1, (1 # 2)%Q); (2, (1 # 3)%Q)] = Ok out /\
    map _source out = [FromBoth; FromBm25; FromSemantic] /\
    ids_of out = [2; 0; 1].
Proof.
  destruct (merge_provenance (Sample.corpus 3)
              [(2, (5 # 1)%Q); (0, (4 # 1)%Q)]
              [(1, (1 # 2)%Q); (2, (1 # 3)%Q)])
    as (out & Hout & Hids & _).
  - apply corpus_store_ok.
  - repeat constructor; simpl; lia.
  - repeat constructor; simpl; lia.
  - simpl. apply NoDup_cons. split; [|apply NoDup_singleton].
    rewrite list_elem_of_singleton. lia.
  - exists out. split; [exact Hout|].
    vm_compute in Hout. injection Hout as <-. split; reflexivity.
Defined.

(** ** Merging a list with itself *)

Lemma note_id_fresh acc l : NoDup (acc ++ l) -> foldl note_id acc l = acc ++ l.
Proof.
  revert acc. induction l as [|x l IH]; intros acc Hnd; simpl.
  - by rewrite app_nil_r.
  - unfold note_id at 2. rewrite decide_False.
    + rewrite IH; [by rewrite <- app_assoc|]. by rewrite <- app_assoc.
    + apply NoDup_app in Hnd as (_ & Hdisj & _). intros Hx.
      apply (Hdisj x Hx). apply elem_of_cons. by left.
Qed.

Lemma note_id_known acc l :
  (forall x, x ∈ l -> x ∈ acc) -> foldl note_id acc l = acc.
Proof.
  induction l as [|x l IH]; intros Hsub; simpl; [done|].
  unfold note_id at 2. rewrite decide_True.
  - apply IH. intros y Hy. apply Hsub. apply elem_of_cons. by right.
  - apply Hsub. apply elem_of_cons. by left.
Qed.

Lemma first_occurrences_twice l : NoDup l -> first_occurrences (l ++ l) = l.
Proof.
  intros Hnd. unfold first_occurrences. rewrite foldl_app.
  rewrite (note_id_fresh [] l) by done. simpl.
  by apply note_id_known.
Qed.

Lemma first_score_at (hits : list (Z * Q)) (i : nat) d s :
  NoDup hits.*1 -> hits !! i = Some (d, s) -> first_score d s hits.
Proof.
  intros Hnd Hi. exists (take i hits), (drop (S i) hits). split.
  - by rewrite take_drop_middle.
  - rewrite <- (take_drop_middle hits i (d, s) Hi) in Hnd.
    rewrite fmap_app in Hnd. simpl in Hnd.
    apply NoDup_app in Hnd as (_ & Hdisj & _). intros Hd.
    apply (Hdisj d Hd). apply elem_of_cons. by left.
Qed.

(** X5. Merging a ranked list of valid, distinct ids with itself returns
    its documents in the same order with the same scores, every entry
    marked "both". *)
Theorem merge_with_itself (ds : list Document) (hits : list (Z * Q)) :
  store_ok ds -> valid_hits ds hits -> NoDup hits.*1 ->
  exists out,
    merge ds hits hits = Ok out /\
    Forall2 (entry_of ds FromBoth) out hits.
Proof.
  intros Hstore Hvalid Hnd.
  destruct (merge_valid_hits_emission_order ds hits hits Hstore Hvalid Hvalid)
    as (out & Hout & Hids & Hnodup).
  rewrite first_occurrences_twice in Hids by done.
  exists out. split; [done|].
  pose proof (merge_entries_from_corpus ds hits hits out Hstore Hout)
    as Hdocs.
  rewrite Forall_forall in Hdocs.
  apply Forall2_same_length_lookup. split.
  { apply (f_equal length) in Hids. unfold ids_of in Hids.
    by rewrite length_map, length_fmap in Hids. }
  intros i e [d s] He Hhit.
  assert (doc_id (doc e) = d) as Hd.
  { assert (ids_of out !! i = Some (doc_id (doc e))) as H1
      by (unfold ids_of; by rewrite list_lookup_fmap, He).
    rewrite Hids, list_lookup_fmap, Hhit in H1. by injection H1 as <-. }
  pose proof (first_score_at hits i d s Hnd Hhit) as Hfirst.
  assert (d ∈ hits.*1) as Hin
    by (apply list_elem_of_lookup_2 in Hhit;
        by apply (list_elem_of_fmap_2 fst) in Hhit).
  pose proof (merge_holds_both ds hits hits out d s Hstore Hvalid Hfirst Hin
                Hout) as Hhold.
  apply list_elem_of_lookup_2 in He.
  destruct (holds_entry_NoDup d s true out e Hhold Hnodup He Hd) as [Hs Hsrc].
  unfold entry_of. simpl. split; [|done].
  rewrite <- Hd. by apply Hdocs.
Qed.

Lemma merge_with_itself_witness :
  exists out,
    merge (Sample.corpus 2) [(1, (3 # 1)%Q); (0, (1 # 1)%Q)]
      [(1, (3 # 1)%Q); (0, (1 # 1)%Q)] = Ok out /\
    map _source out = [FromBoth; FromBoth].
Proof.
  destruct (merge_with_itself (Sample.corpus 2)
              [(1, (3 # 1)%Q); (0, (1 # 1)%Q)])
    as (out & Hout & _).
  - apply corpus_store_ok.
  - repeat constructor; simpl; lia.
  - simpl. apply NoDup_cons. split; [|apply NoDup_singleton].
    rewrite list_elem_of_singleton. lia.
  - exists out. split; [exact Hout|].
    vm_compute in Hout. injection Hout as <-. reflexivity.
Defined.

(** ** Size of the merged list *)

Lemma mark_both_length idx l : length (mark_both idx l) = length l.
Proof.
  induction l as [|x l IH]; simpl; [done|].
  destruct (decide _); simpl; [done|]. by rewrite IH.
Qed.

Lemma add_bm25_size ds st hit st' :
  add_bm25 ds st hit = Ok st' ->
  (length (combined_docs_list st') <= S (length (combined_docs_list st)))%nat /\
  ((combined_docs_list st = [] -> seen_ids st = ∅) ->
   combined_docs_list st' <> []) /\
  (combined_docs_list st <> [] -> combined_docs_list st' <> []).
Proof.
  destruct hit as [idx sc]. unfold add_bm25.
  destruct (decide (idx ∈ seen_ids st)) as [Hin|Hnin].
  - intros [= <-]. split; [lia|]. split; [|done].
    intros HK Hnil. rewrite (HK Hnil) in Hin. by apply elem_of_empty in Hin.
  - destruct (py_index ds idx) as [x|]; simpl; [|done].
    intros [= <-]. simpl. rewrite length_app. simpl.
    split; [lia|]. split; intros _ Hnil; by apply app_nil in Hnil as [_ ?].
Qed.

Lemma add_vector_size ds st hit st' :
  add_vector ds st hit = Ok st' ->
  (length (combined_docs_list st') <= S (length (combined_docs_list st)))%nat /\
  ((combined_docs_list st = [] -> seen_ids st = ∅) ->
   combined_docs_list st' <> []) /\
  (combined_docs_list st <> [] -> combined_docs_list st' <> []).
Proof.
  destruct hit as [idx sc]. unfold add_vector.
  destruct (decide (idx ∈ seen_ids st)) as [Hin|Hnin].
  - intros [= <-]. simpl. rewrite mark_both_length. split; [lia|].
    assert (combined_docs_list st <> [] ->
            mark_both idx (combined_docs_list st) <> []) as Hkeep.
    { intros Hne Hnil. apply (f_equal length) in Hnil.
      rewrite mark_both_length in Hnil. by destruct (combined_docs_list st). }
    split; [|done].
    intros HK. apply Hkeep. intros Hnil.
    rewrite (HK Hnil) in Hin. by apply elem_of_empty in Hin.
  - destruct (py_index ds idx) as [x|]; simpl; [|done].
    intros [= <-]. simpl. rewrite length_app. simpl.
    split; [lia|]. split; intros _ Hnil; by apply app_nil in Hnil as [_ ?].
Qed.

Lemma for_each_size (body : MergeState -> Z * Q -> result MergeState)
    (hits : list (Z * Q)) st st' :
  (forall st hit st', body st hit = Ok st' ->
     (length (combined_docs_list st') <= S (length (combined_docs_list st)))%nat
     /\ ((combined_docs_list st = [] -> seen_ids st = ∅) ->
         combined_docs_list st' <> [])
     /\ (combined_docs_list st <> [] -> combined_docs_list st' <> [])) ->
  for_each body st hits = Ok st' ->
  (length (combined_docs_list st')
   <= length (combined_docs_list st) + length hits)%nat /\
  (combined_docs_list st <> [] -> combined_docs_list st' <> []) /\
  (hits <> [] -> (combined_docs_list st = [] -> seen_ids st = ∅) ->
   combined_docs_list st' <> []).
Proof.
  intros Hstep. revert st.
  induction hits as [|hit hits IH]; intros st; simpl.
  - intros [= <-]. split; [lia|]. split; done.
  - destruct (body st hit) as [st1|] eqn:Hb; simpl; [|done].
    destruct (Hstep st hit st1 Hb) as (Hlen1 & Hfirst & Hkeep1).
    intros Hrest. destruct (IH st1 Hrest) as (Hlen & Hkeep & _).
    split; [lia|]. split.
    + intros Hne. by apply Hkeep, Hkeep1.
    + intros _ HK. by apply Hkeep, Hfirst.
Qed.

(** X6. Whenever the merge returns, its output is empty exactly when both
    hit lists are empty, and it is never longer than the two lists
    together. *)
Theorem merge_size (ds : list Document) (bm25 vector : list (Z * Q))
    (out : list ScoredDoc) :
  merge ds bm25 vector = Ok out ->
  (out = [] <-> bm25 = [] /\ vector = []) /\
  (length out <= length bm25 + length vector)%nat.
Proof.
  unfold merge.
  destruct (for_each (add_bm25 ds) _ bm25) as [st1|] eqn:H1;
    cbn [rbind]; [|done].
  destruct (for_each (add_vector ds) st1 vector) as [st2|] eqn:H2;
    cbn [rbind]; [|done].
  intros [= <-].
  destruct (for_each_size (add_bm25 ds) bm25 _ _ (add_bm25_size ds) H1)
    as (Hlen1 & _ & Hne1).
  destruct (for_each_size (add_vector ds) vector _ _ (add_vector_size ds) H2)
    as (Hlen2 & Hkeep2 & Hne2).
  simpl in Hlen1, Hne1. split; [|lia]. split.
  - intros Hnil. destruct bm25 as [|hit bm25].
    + split; [done|]. destruct vector as [|hit vector]; [done|].
      simpl in H1. injection H1 as <-. exfalso.
      by apply Hne2.
    + exfalso. apply Hkeep2; [|done]. by apply Hne1.
  - intros [-> ->]. simpl in H1, H2. injection H1 as <-.
    by injection H2 as <-.
Qed.

Lemma merge_size_witness :
  exists out,
    merge (Sample.corpus 2) [(1, (3 # 1)%Q)] [(1, (1 # 2)%Q); (0, (1 # 3)%Q)]
      = Ok out /\
    out <> [] /\ (length out <= 1 + 2)%nat.
Proof.
  eexists. split; [reflexivity|].
  destruct (merge_size (Sample.corpus 2) [(1, (3 # 1)%Q)]
              [(1, (1 # 2)%Q); (0, (1 # 3)%Q)] _ eq_refl) as [Hempty Hlen].
  split; [|exact Hlen].
  intros Hnil. by destruct (proj1 Hempty Hnil).
Defined.

(** ** Modes of [retrieve] *)

Lemma for_each_add_bm25_fresh ds hits st :
  valid_hits ds hits -> NoDup hits.*1 ->
  (forall i, i ∈ hits.*1 -> i ∉ seen_ids st) ->
  exists st' es,
    for_each (add_bm25 ds) st hits = Ok st' /\
    combined_docs_list st' = combined_docs_list st ++ es /\
    Forall2 (entry_of ds FromBm25) es hits.
Proof.
  intros Hvalid. revert st.
  induction Hvalid as [|[idx sc] hits Hidx _ IH]; intros st Hnd Hfresh.
  - exists st, []. simpl. by rewrite app_nil_r.
  - simpl in Hnd. apply NoDup_cons in Hnd as [Hnin Hnd].
    cbn [for_each]. unfold add_bm25 at 1.
    rewrite decide_False
      by (apply Hfresh; simpl; apply elem_of_cons; by left).
    simpl in Hidx.
    destruct (py_index_nonneg ds idx Hidx) as (x & Hx & ->). cbn [rbind].
    destruct (IH {| seen_ids := {[idx]} ∪ seen_ids st;
                    combined_docs_list :=
                      combined_docs_list st
                      ++ [{| doc := x; _score := sc; _source := FromBm25 |}] |}
                Hnd) as (st' & es & -> & Hcomb & Hes).
    { intros i Hi. simpl.
      rewrite not_elem_of_union, not_elem_of_singleton. split.
      - intros ->. done.
      - apply Hfresh. simpl. apply elem_of_cons. by right. }
    exists st', ({| doc := x; _score := sc; _source := FromBm25 |} :: es).
    split; [done|]. split.
    + rewrite Hcomb. simpl. by rewrite <- app_assoc.
    + constructor; [|done]. by repeat split.
Qed.

(** X7. In mode "bm25" without generation, [retrieve] always returns: the
    embedder and the vector index are not used, the semantic list is empty,
    and the merged list has one entry per lexical hit, in rank order, each
    the corpus document at the hit's position with the hit's score and
    provenance "bm25". *)
Theorem retrieve_lexical_mode (argsort : list Q -> list nat)
    (chat_completion : pystr -> list ScoredDoc -> result pystr)
    (r : Retriever) (query : pystr) (top_k : Z) (w : World) :
  is_argsort argsort -> bm25_ok r ->
  exists res,
    retrieve argsort chat_completion r query top_k "bm25" false w
      = (Ok res, w) /\
    bm25_results res = search_bm25 argsort r query top_k /\
    vector_results res = [] /\
    answer res = None /\
    Forall2 (entry_of (docs r) FromBm25) (combined_docs res) (bm25_results res).
Proof.
  intros Hsort Hbm.
  pose proof (search_bm25_valid argsort Hsort r query top_k Hbm) as Hvalid.
  pose proof (search_bm25_NoDup argsort Hsort r query top_k) as Hnd.
  destruct (for_each_add_bm25_fresh (docs r)
              (search_bm25 argsort r query top_k)
              {| seen_ids := ∅; combined_docs_list := [] |} Hvalid Hnd)
    as (st' & es & Hrun & Hcomb & Hes).
  { intros i _. apply not_elem_of_empty. }
  simpl in Hcomb.
  exists (with_answer (search_bm25 argsort r query top_k) [] es None).
  split; [|by repeat split].
  rewrite retrieve_unfold. unfold search_phase.
  rewrite decide_True by by left.
  rewrite decide_False by (intros [?|?]; discriminate).
  rewrite (print_results_valid r _ Hvalid). cbn [rbind].
  unfold merge. rewrite Hrun. cbn [rbind for_each]. by rewrite Hcomb.
Qed.

Lemma retrieve_lexical_mode_witness :
  exists res,
    retrieve stable_argsort Sample.chat_ok (Sample.engine_no_embedder 3)
      [97%N] 2 "bm25" false Sample.w0 = (Ok res, Sample.w0) /\
    vector_results res = [] /\
    map _source (combined_docs res) = [FromBm25; FromBm25].
Proof.
  destruct (retrieve_lexical_mode stable_argsort Sample.chat_ok
              (Sample.engine_no_embedder 3) [97%N] 2 Sample.w0
              stable_argsort_is_argsort)
    as (res & Hrun & _ & Hvec & _).
  - intros q. reflexivity.
  - exists res. split; [exact Hrun|]. split; [exact Hvec|].
    vm_compute in Hrun. injection Hrun as <-. reflexivity.
Defined.

(** X8. A mode other than "bm25", "vector" and "both" is not rejected: no
    search runs and [retrieve] returns empty lists with no answer, without
    calling [generate], whatever [generate_answer] is. *)
Theorem retrieve_unknown_mode (argsort : list Q -> list nat)
    (chat_completion : pystr -> list ScoredDoc -> result pystr)
    (r : Retriever) (query : pystr) (top_k : Z) (mode : string)
    (generate_answer : bool) (w : World) :
  mode <> "bm25"%string -> mode <> "vector"%string -> mode <> "both"%string ->
  retrieve argsort chat_completion r query top_k mode generate_answer w
  = (Ok (with_answer [] [] [] None), w).
Proof.
  intros Hb Hv Hboth. rewrite retrieve_unfold. unfold search_phase.
  rewrite !decide_False by (intros [?|?]; done).
  simpl. by rewrite andb_false_r.
Qed.

Lemma retrieve_unknown_mode_witness :
  retrieve stable_argsort Sample.chat_ok (Sample.engine 3) [97%N] 2
    "lexical" true Sample.w0
  = (Ok (with_answer [] [] [] None), Sample.w0).
Proof.
  apply (retrieve_unknown_mode stable_argsort Sample.chat_ok (Sample.engine 3)
           [97%N] 2 "lexical" true Sample.w0); discriminate.
Defined.

(** X9. Whatever its arguments and outcome, [retrieve] leaves the snapshot
    of top sources untouched and calls [generate] at most once: never when
    [generate_answer] is false, and never with an empty document list. *)
Theorem retrieve_effects (argsort : list Q -> list nat)
    (chat_completion : pystr -> list ScoredDoc -> result pystr)
    (r : Retriever) (query : pystr) (top_k : Z) (mode : string)
    (generate_answer : bool) (w : World) :
  let w' :=
    (retrieve argsort chat_completion r query top_k mode generate_answer w).2
  in
  last_top_sources w' = last_top_sources w /\
  (generate_calls w' = generate_calls w \/
   (generate_answer = true /\
    exists ds, ds <> [] /\
      generate_calls w' = generate_calls w ++ [(query, ds)])).
Proof.
  simpl. rewrite retrieve_unfold.
  destruct (search_phase argsort r query top_k mode) as [[[b v] c]|e];
    [|by split; [|left]].
  destruct generate_answer; simpl; [|by split; [|left]].
  destruct (bool_decide (c = [])) eqn:Hc; simpl; [by split; [|left]|].
  apply bool_decide_eq_false in Hc.
  pose proof (generate_records_call chat_completion query c w) as Hrec.
  destruct (generate chat_completion query c w) as [[a|e] w1];
    simpl in Hrec; subst w1.
  - simpl. split; [done|]. right. split; [done|]. by exists c.
  - destruct (is_Exception e); simpl;
      (split; [done|]; right; split; [done|]; by exists c).
Qed.

(** ** A label outside the corpus *)

Lemma py_index_out_of_range {A} (l : list A) (i : Z) :
  ~ (- Z.of_nat (length l) <= i < Z.of_nat (length l)) ->
  py_index l i = Raise IndexError.
Proof.
  intros Hi. unfold py_index.
  destruct (Z.leb_spec 0 i) as [H0|H0].
  - destruct (Z.leb_spec 0 i); [|lia].
    destruct (Z.ltb_spec i (Z.of_nat (length l))); [lia|done].
  - destruct (Z.leb_spec 0 (Z.of_nat (length l) + i)); [lia|done].
Qed.

Lemma py_index_raises {A} (l : list A) (i : Z) (e : exn) :
  py_index l i = Raise e -> e = IndexError.
Proof.
  unfold py_index. destruct (_ && _); [|by intros [= <-]].
  destruct (l !! _); [done|by intros [= <-]].
Qed.

Lemma print_results_out_of_range r hits :
  Exists (fun hit => ~ (- Z.of_nat (length (docs r)) <= hit.1
                        < Z.of_nat (length (docs r)))) hits ->
  print_results r hits = Raise IndexError.
Proof.
  unfold print_results.
  induction hits as [|hit hits IH]; intros Hex; [by apply Exists_nil in Hex|].
  simpl. destruct (py_index (docs r) hit.1) as [x|e] eqn:Hx; simpl.
  - apply IH. apply Exists_cons in Hex as [Hbad|Hex]; [|done].
    rewrite (py_index_out_of_range _ _ Hbad) in Hx. done.
  - by rewrite (py_index_raises _ _ _ Hx).
Qed.

(** X10. If the semantic search returns a label outside [-n, n) for a
    corpus of n documents (as an index with more vectors than documents
    does), [retrieve] in mode "vector" or "both" raises IndexError: nothing
    is merged, [generate] is not called and no result is returned. *)
Theorem retrieve_label_out_of_range (argsort : list Q -> list nat)
    (chat_completion : pystr -> list ScoredDoc -> result pystr)
    (r : Retriever) (query : pystr) (top_k : Z) (mode : string)
    (generate_answer : bool) (w : World) (v : list (Z * Q)) :
  is_argsort argsort -> bm25_ok r ->
  mode = "vector"%string \/ mode = "both"%string ->
  search_vector r query top_k = Ok v ->
  Exists (fun hit => ~ (- Z.of_nat (length (docs r)) <= hit.1
                        < Z.of_nat (length (docs r)))) v ->
  retrieve argsort chat_completion r query top_k mode generate_answer w
  = (Raise IndexError, w).
Proof.
  intros Hsort Hbm Hmode Hv Hbad.
  rewrite retrieve_unfold. unfold search_phase.
  rewrite (print_results_valid r _
             (search_bm25_valid argsort Hsort r query top_k Hbm)).
  rewrite Hv. cbn [rbind].
  rewrite (print_results_out_of_range r v Hbad).
  destruct (decide (mode = "bm25"%string \/ mode = "both"%string));
    destruct (decide (mode = "vector"%string \/ mode = "both"%string));
    done.
Qed.

Lemma retrieve_label_out_of_range_witness :
  retrieve stable_argsort Sample.chat_ok (engine_larger_index 1 2) [97%N] 2
    "both" true Sample.w0
  = (Raise IndexError, Sample.w0).
Proof.
  apply (retrieve_label_out_of_range stable_argsort Sample.chat_ok
           (engine_larger_index 1 2) [97%N] 2 "both" true Sample.w0
           [(0, (1 # 2)%Q); (1, (1 # 2)%Q)] stable_argsort_is_argsort).
  - intros q. reflexivity.
  - by right.
  - reflexivity.
  - apply Exists_cons. right. apply Exists_cons. left. simpl. lia.
Defined.

(** ** The engine singleton *)

Lemma get_retriever_calls_loaded (constructs : list (result Retriever))
    (r : Retriever) :
  get_retriever_calls constructs (Some r)
  = (replicate (length constructs) (Ok r), Some r).
Proof.
  induction constructs as [|c rest IH]; simpl; [done|]. by rewrite IH.
Qed.

Lemma loaded_outs_stable (r0 : Retriever) (n : nat) :
  (forall (i j : nat) r, (i <= j < S n)%nat ->
     (Ok r0 :: replicate n (Ok r0)) !! i = Some (Ok r) ->
     (Ok r0 :: replicate n (Ok r0)) !! j = Some (Ok r)) /\
  (forall (i : nat) (e : exn) (c : result Retriever) rest,
     (Ok r0 :: replicate n (Ok r0)) !! i = Some (Raise e) ->
     (c :: rest) !! i = Some (Raise e)).
Proof.
  change (Ok r0 :: replicate n (Ok r0)) with (replicate (S n) (Ok r0)).
  split.
  - intros i j r Hij Hi. apply lookup_replicate in Hi as [Hi _].
    rewrite Hi. apply lookup_replicate_2. lia.
  - intros i e c rest Hi. by apply lookup_replicate in Hi as [? _].
Qed.

(** While every construction so far has failed, a call returns the
    outcome of its own construction attempt. *)
Lemma get_retriever_calls_retry (constructs : list (result Retriever))
    (i : nat) :
  (forall (j : nat), (j < i)%nat ->
     exists e, constructs !! j = Some (Raise e)) ->
  (get_retriever_calls constructs None).1 !! i = constructs !! i.
Proof.
  revert i. induction constructs as [|c rest IH]; intros i Hfailed.
  - done.
  - destruct i as [|i].
    + simpl. destruct c as [r|e]; simpl.
      * by rewrite get_retriever_calls_loaded.
      * by destruct (get_retriever_calls rest None).
    + destruct (Hfailed 0%nat) as [e He]; [lia|].
      simpl in He. injection He as ->. simpl.
      specialize (IH i).
      destruct (get_retriever_calls rest None) as [outs slot2]. simpl in *.
      apply IH. intros j Hj. apply (Hfailed (S j)). lia.
Qed.

(** X11. Over any sequence of [get_retriever] calls: once a call has
    returned an engine, every later call returns that same engine, whatever
    constructing anew would give; a call fails only with the failure of its
    own construction attempt; and a failed construction is retried: starting
    from an empty slot, as long as every earlier construction has failed a
    call returns the outcome of its own construction. With an engine already
    in the slot every call returns it. *)
Theorem get_retriever_singleton (constructs : list (result Retriever))
    (slot : option Retriever) :
  let outs := (get_retriever_calls constructs slot).1 in
  length outs = length constructs /\
  (forall (i j : nat) r, (i <= j < length outs)%nat ->
     outs !! i = Some (Ok r) -> outs !! j = Some (Ok r)) /\
  (forall (i : nat) e, outs !! i = Some (Raise e) ->
     constructs !! i = Some (Raise e)) /\
  (slot = None ->
   forall (i : nat),
     (forall (j : nat), (j < i)%nat ->
        exists e, constructs !! j = Some (Raise e)) ->
     outs !! i = constructs !! i) /\
  (forall r, slot = Some r ->
     outs = replicate (length constructs) (Ok r)).
Proof.
  simpl.
  assert (forall A B C D E : Prop, A /\ B /\ C -> D -> E ->
            A /\ B /\ C /\ D /\ E) as Hjoin by tauto.
  apply Hjoin; clear Hjoin;
    [|intros ->; apply get_retriever_calls_retry
     |intros r ->; by rewrite get_retriever_calls_loaded].
  revert slot. induction constructs as [|c rest IH]; intros slot.
  - simpl. split; [done|]. split; [intros i j r; lia|done].
  - destruct slot as [r0|].
    + rewrite get_retriever_calls_loaded. simpl.
      rewrite length_replicate. split; [done|].
      destruct (loaded_outs_stable r0 (length rest)) as [Hs Hf].
      split; [exact Hs|]. intros i e. apply Hf.
    + simpl. destruct c as [r|e0].
      * rewrite get_retriever_calls_loaded. simpl.
        rewrite length_replicate. split; [done|].
        destruct (loaded_outs_stable r (length rest)) as [Hs Hf].
        split; [exact Hs|]. intros i e. apply Hf.
      * destruct (IH None) as (Hlen & Hstable & Hfail).
        destruct (get_retriever_calls rest None) as [outs slot2]. simpl in *.
        split; [by rewrite Hlen|]. split.
        -- intros [|i] [|j] r Hij Hi; simpl in *; try done; try lia.
           apply (Hstable i j r); [lia|done].
        -- intros [|i] e Hi; simpl in *; [done|]. by apply Hfail.
Qed.

Lemma get_retriever_singleton_witness :
  let outs :=
    (get_retriever_calls
       [Raise ValueError; Ok (Sample.engine 1); Raise ValueError;
        Ok (Sample.engine 2)] None).1 in
  outs !! 3%nat = Some (Ok (Sample.engine 1)) /\
  outs !! 1%nat = Some (Ok (Sample.engine 1)).
Proof.
  cbv zeta.
  destruct (get_retriever_singleton
              [Raise ValueError; Ok (Sample.engine 1); Raise ValueError;
               Ok (Sample.engine 2)] None)
    as (_ & Hstable & _ & Hretry & _).
  assert ((get_retriever_calls
             [Raise ValueError; Ok (Sample.engine 1); Raise ValueError;
              Ok (Sample.engine 2)] None).1 !! 1%nat
          = Some (Ok (Sample.engine 1))) as Hfirst.
  { rewrite (Hretry eq_refl 1%nat); [reflexivity|].
    intros [|j] Hj; [by exists ValueError|lia]. }
  split; [|exact Hfirst].
  apply (Hstable 1%nat 3%nat); [simpl; lia|exact Hfirst].
Defined.

(** ** [search] and its caller *)

Lemma search_phase_both_inv argsort r query top_k b v c :
  search_phase argsort r query top_k "both" = Ok (b, v, c) ->
  b = search_bm25 argsort r query top_k /\
  search_vector r query top_k = Ok v /\
  merge (docs r) b v = Ok c.
Proof.
  unfold search_phase.
  destruct (decide ("both" = "bm25" \/ "both" = "both")%string)
    as [_|Hn]; [|exfalso; apply Hn; by right].
  destruct (decide ("both" = "vector" \/ "both" = "both")%string)
    as [_|Hn]; [|exfalso; apply Hn; by right].
  cbn [rbind].
  destruct (print_results r (search_bm25 argsort r query top_k))
    as [[]|?]; cbn [rbind]; [|done].
  destruct (search_vector r query top_k) as [v'|?]; cbn [rbind]; [|done].
  destruct (print_results r v') as [[]|?]; cbn [rbind]; [|done].
  destruct (merge _ _ _) as [c'|] eqn:Hm; cbn [rbind]; [|done].
  by intros [= <- <- <-].
Qed.

Lemma search_inv argsort chat_completion r query top_k primary_query w ds w' :
  search argsort chat_completion r query top_k primary_query w = (Ok ds, w') ->
  exists v from_bm25 from_vector,
    search_vector r (search_query_of query primary_query) top_k = Ok v /\
    merge (docs r)
      (search_bm25 argsort r (search_query_of query primary_query) top_k) v
      = Ok ds /\
    top_sources_of r
      (py_slice_to
         (search_bm25 argsort r (search_query_of query primary_query) top_k) 3)
      = Ok from_bm25 /\
    top_sources_of r (py_slice_to v 2) = Ok from_vector /\
    w' = {| generate_calls := generate_calls w;
            last_top_sources := Some (from_bm25 ++ from_vector) |}.
Proof.
  unfold search, bind, lift, ret, set_last_top_sources.
  destruct (retrieve argsort chat_completion r
              (search_query_of query primary_query) top_k "both" false w)
    as [[res|e] w1] eqn:Hret; [|done].
  destruct (retrieve_without_generation _ _ _ _ _ _ _ _ _ Hret)
    as (-> & Hphase & _).
  destruct (search_phase_both_inv _ _ _ _ _ _ _ Hphase) as (Hb & Hv & Hm).
  destruct (top_sources_of r (py_slice_to (bm25_results res) 3))
    as [lb|] eqn:Hlb; [|done].
  destruct (top_sources_of r (py_slice_to (vector_results res) 2))
    as [lv|] eqn:Hlv; [|done].
  intros [= <- <-]. exists (vector_results res), lb, lv.
  rewrite <- Hb. by repeat split.
Qed.

Lemma top_sources_of_length r hits l :
  top_sources_of r hits = Ok l -> length l = length hits.
Proof.
  unfold top_sources_of.
  assert (forall acc l,
    for_each (fun acc hit =>
                try d <- py_index (docs r) hit.1 in
                Ok (acc ++ [source_info d hit.2])) acc hits = Ok l ->
    length l = (length acc + length hits)%nat) as Hgen.
  { induction hits as [|hit hits IH]; intros acc l0; simpl.
    - intros [= <-]. lia.
    - destruct (py_index (docs r) hit.1) as [d|]; simpl; [|done].
      intros Hrest%IH. rewrite length_app in Hrest. simpl in Hrest. lia. }
  intros Hl%Hgen. simpl in Hl. lia.
Qed.

Lemma py_slice_to_short {A} (l : list A) (m : nat) :
  (length (py_slice_to l (Z.of_nat m)) <= m)%nat.
Proof.
  rewrite py_slice_to_length by lia. rewrite Nat2Z.id. lia.
Qed.

Lemma merge_lexical_prefix ds bm25 vector out :
  store_ok ds -> valid_hits ds bm25 -> NoDup bm25.*1 ->
  merge ds bm25 vector = Ok out ->
  exists tail, ids_of out = bm25.*1 ++ tail.
Proof.
  intros Hstore Hvalid Hnd. unfold merge.
  destruct (for_each_add_bm25_fresh ds bm25
              {| seen_ids := ∅; combined_docs_list := [] |} Hvalid Hnd)
    as (st1 & es & -> & Hcomb & Hes).
  { intros i _. apply not_elem_of_empty. }
  cbn [rbind]. simpl in Hcomb.
  destruct (for_each (add_vector ds) st1 vector) as [st2|] eqn:H2;
    cbn [rbind]; [|done].
  intros [= <-].
  assert (ids_of (combined_docs_list st1) = bm25.*1) as Hids1.
  { rewrite Hcomb. clear -Hes Hstore Hvalid. unfold valid_hits in Hvalid.
    induction Hes as [|e [idx sc] es hits (Hd & _ & _) _ IH]; [done|].
    apply Forall_cons in Hvalid as [Hidx Hvalid]. simpl in *.
    rewrite (IH Hvalid). f_equal.
    rewrite (Hstore _ _ Hd). lia. }
  rewrite <- Hids1.
  eapply (for_each_invariant (add_vector ds) (fun _ => True)
            (fun st => exists tail,
               ids_of (combined_docs_list st)
               = ids_of (combined_docs_list st1) ++ tail));
    [|by apply Forall_true|by exists []; rewrite app_nil_r|exact H2].
  intros st [idx sc] st' _ [tail Htail]. unfold add_vector.
  destruct (decide _).
  - intros [= <-]. simpl. rewrite ids_of_mark_both. eauto.
  - destruct (py_index ds idx) as [x|]; simpl; [|done].
    intros [= <-]. simpl. rewrite ids_of_snoc, Htail.
    eexists. by rewrite <- app_assoc.
Qed.

(** X12. When [search] returns over a store with id = position, its list
    starts with the documents of the lexical hits, in rank order, whatever
    the semantic search returned; so over a non-empty corpus with a positive
    [top_k] it never returns an empty list. *)
Theorem search_lexical_first (argsort : list Q -> list nat)
    (chat_completion : pystr -> list ScoredDoc -> result pystr)
    (r : Retriever) (query : pystr) (top_k : Z)
    (primary_query : option pystr) (w w' : World) (ds : list ScoredDoc) :
  is_argsort argsort -> bm25_ok r -> store_ok (docs r) ->
  search argsort chat_completion r query top_k primary_query w = (Ok ds, w') ->
  (exists tail,
     ids_of ds
     = (search_bm25 argsort r (search_query_of query primary_query) top_k).*1
       ++ tail) /\
  (docs r <> [] -> 0 < top_k -> ds <> []).
Proof.
  intros Hsort Hbm Hstore Hsearch.
  destruct (search_inv _ _ _ _ _ _ _ _ _ Hsearch)
    as (v & lb & lv & Hv & Hmerge & _).
  pose proof (search_bm25_valid argsort Hsort r
                (search_query_of query primary_query) top_k Hbm) as Hvalid.
  pose proof (search_bm25_NoDup argsort Hsort r
                (search_query_of query primary_query) top_k) as Hnd.
  destruct (merge_lexical_prefix _ _ _ _ Hstore Hvalid Hnd Hmerge)
    as [tail Htail].
  split; [by exists tail|].
  intros Hdocs Hk Hnil. subst ds. simpl in Htail.
  symmetry in Htail. apply app_nil in Htail as [Hb _].
  apply (f_equal length) in Hb. rewrite length_fmap in Hb.
  rewrite (search_bm25_length argsort Hsort r _ top_k Hbm) in Hb by lia.
  simpl in Hb. destruct (docs r); [done|]. simpl in Hb. lia.
Qed.

Lemma search_lexical_first_witness :
  exists ds w',
    search stable_argsort Sample.chat_ok (Sample.engine 3) [97%N] 2 None
      Sample.w0 = (Ok ds, w') /\
    ds <> [].
Proof.
  do 2 eexists. split; [reflexivity|].
  assert (bm25_ok (Sample.engine 3)) as Hbm by (intros q; reflexivity).
  destruct (search_lexical_first stable_argsort Sample.chat_ok
              (Sample.engine 3) [97%N] 2 None Sample.w0 _ _
              stable_argsort_is_argsort Hbm (corpus_store_ok 3) eq_refl)
    as [_ Hne].
  apply Hne; [discriminate|lia].
Defined.

Lemma search_embedding_failure argsort chat_completion r query top_k
    primary_query w e :
  is_argsort argsort -> bm25_ok r ->
  (forall text, model_encode r text = Raise e) ->
  search argsort chat_completion r query top_k primary_query w = (Raise e, w).
Proof.
  intros Hsort Hbm Henc.
  unfold search, bind. rewrite retrieve_unfold. unfold search_phase.
  rewrite (print_results_valid r _
             (search_bm25_valid argsort Hsort r _ top_k Hbm)).
  unfold search_vector. rewrite Henc.
  rewrite !decide_True by by right. done.
Qed.

(** X13. When the embedder is down (every embedding call raises an
    [Exception]), [_run_rag_task] with an available engine does not raise:
    it returns the failure tuple (no answer, no documents, no top sources,
    the error), and leaves the world, snapshot included, as it was. *)
Theorem run_rag_task_embedder_down (argsort : list Q -> list nat)
    (chat_completion : pystr -> list ScoredDoc -> result pystr)
    (construct : result Retriever)
    (search_query primary_query original_query : pystr)
    (slot slot1 : option Retriever) (w : World) (r : Retriever) (e : exn) :
  is_argsort argsort -> bm25_ok r ->
  get_retriever construct slot = (Ok r, slot1) ->
  (forall text, model_encode r text = Raise e) ->
  is_Exception e = true ->
  _run_rag_task argsort chat_completion construct search_query primary_query
    original_query slot w
  = (Ok (rag_failed e), (slot1, w)).
Proof.
  intros Hsort Hbm Hget Henc Hexc. unfold _run_rag_task.
  rewrite Hget.
  rewrite (search_embedding_failure argsort chat_completion r search_query
             RERANK_TOP_K (Some primary_query) w e Hsort Hbm Henc).
  by rewrite Hexc.
Qed.

Lemma run_rag_task_embedder_down_witness :
  _run_rag_task stable_argsort Sample.chat_ok
    (Ok (Sample.engine_no_embedder 3)) [97%N] [97%N] [97%N] None Sample.w0
  = (Ok (rag_failed (RuntimeError 1)),
     (Some (Sample.engine_no_embedder 3), Sample.w0)).
Proof.
  apply (run_rag_task_embedder_down stable_argsort Sample.chat_ok
           (Ok (Sample.engine_no_embedder 3)) [97%N] [97%N] [97%N]
           None (Some (Sample.engine_no_embedder 3)) Sample.w0
           (Sample.engine_no_embedder 3) (RuntimeError 1)
           stable_argsort_is_argsort).
  - intros q. reflexivity.
  - reflexivity.
  - intros text. reflexivity.
  - reflexivity.
Defined.

(** X14. With an available engine over a non-empty corpus (id = position),
    when the search and the generation succeed [_run_rag_task] returns the
    answer, the non-empty merged list and the top sources of this very
    search (at most 5), with no error; the "nothing found" tuple is never
    returned, and [generate] is called once, with the original query and
    the merged list. *)
Theorem run_rag_task_success (argsort : list Q -> list nat)
    (chat_completion : pystr -> list ScoredDoc -> result pystr)
    (construct : result Retriever)
    (search_query primary_query original_query : pystr)
    (slot slot1 : option Retriever) (w w1 w2 : World) (r : Retriever)
    (ds : list ScoredDoc) (a : pystr) :
  is_argsort argsort -> bm25_ok r -> store_ok (docs r) -> docs r <> [] ->
  get_retriever construct slot = (Ok r, slot1) ->
  search argsort chat_completion r search_query RERANK_TOP_K
    (Some primary_query) w = (Ok ds, w1) ->
  generate chat_completion original_query ds w1 = (Ok a, w2) ->
  _run_rag_task argsort chat_completion construct search_query primary_query
    original_query slot w
  = (Ok {| rag_answer := Some a; rag_docs := ds;
           rag_top_sources := get_top_sources w1; rag_error := None |},
     (slot1, w2)) /\
  ds <> [] /\
  (length (get_top_sources w1) <= 5)%nat /\
  generate_calls w2 = generate_calls w ++ [(original_query, ds)].
Proof.
  intros Hsort Hbm Hstore Hdocs Hget Hsearch Hgen.
  destruct (search_inv _ _ _ _ _ _ _ _ _ Hsearch)
    as (v & lb & lv & Hv & Hmerge & Hlb & Hlv & Hw1).
  assert (ds <> []) as Hne.
  { pose proof (search_bm25_valid argsort Hsort r
                  (search_query_of search_query (Some primary_query))
                  RERANK_TOP_K Hbm) as Hvalid.
    pose proof (search_bm25_NoDup argsort Hsort r
                  (search_query_of search_query (Some primary_query))
                  RERANK_TOP_K) as Hnd.
    destruct (merge_lexical_prefix _ _ _ _ Hstore Hvalid Hnd Hmerge)
      as [tail Htail].
    intros Hnil. subst ds. simpl in Htail.
    symmetry in Htail. apply app_nil in Htail as [Hb _].
    apply (f_equal length) in Hb. rewrite length_fmap in Hb.
    rewrite (search_bm25_length argsort Hsort r _ RERANK_TOP_K Hbm) in Hb
      by (unfold RERANK_TOP_K; lia).
    simpl in Hb. destruct (docs r); [done|].
    unfold RERANK_TOP_K in Hb. simpl in Hb. lia. }
  pose proof (generate_records_call chat_completion original_query ds w1)
    as Hrec.
  rewrite Hgen in Hrec. simpl in Hrec.
  split; [|split; [done|split]].
  - unfold _run_rag_task. rewrite Hget, Hsearch.
    rewrite bool_decide_eq_false_2 by done. rewrite Hgen.
    do 3 f_equal. unfold get_top_sources. by rewrite Hrec.
  - rewrite Hw1. unfold get_top_sources. simpl. rewrite length_app.
    apply top_sources_of_length in Hlb, Hlv.
    pose proof (py_slice_to_short
                  (search_bm25 argsort r
                     (search_query_of search_query (Some primary_query))
                     RERANK_TOP_K) 3) as H3.
    pose proof (py_slice_to_short v 2) as H2.
    change (Z.of_nat 3) with 3 in H3. change (Z.of_nat 2) with 2 in H2.
    lia.
  - rewrite Hrec, Hw1. done.
Qed.

Lemma run_rag_task_success_witness :
  exists o st,
    _run_rag_task stable_argsort Sample.chat_ok (Ok (Sample.engine 3))
      [97%N] [98%N] [99%N] None Sample.w0 = (Ok o, st) /\
    rag_answer o = Some [99%N] /\ rag_error o = None /\
    length (rag_top_sources o) = 5%nat.
Proof.
  assert (bm25_ok (Sample.engine 3)) as Hbm by (intros q; reflexivity).
  assert (docs (Sample.engine 3) <> []) as Hdocs by discriminate.
  destruct (run_rag_task_success stable_argsort Sample.chat_ok
              (Ok (Sample.engine 3)) [97%N] [98%N] [99%N] None
              (Some (Sample.engine 3)) Sample.w0 _ _ (Sample.engine 3) _ _
              stable_argsort_is_argsort Hbm (corpus_store_ok 3) Hdocs
              eq_refl eq_refl eq_refl)
    as (Hrun & _).
  do 2 eexists. split; [exact Hrun|]. by repeat split.
Defined.

(** ** Stripped strings *)

Lemma lstrip_head (s : pystr) (c : N) (rest : pystr) :
  lstrip s = c :: rest -> is_space c = false.
Proof.
  induction s as [|c0 s IH]; simpl; [done|].
  destruct (is_space c0) eqn:Hc0; [exact IH|]. by intros [= <- _].
Qed.

Lemma lstrip_id (s : pystr) :
  match s with [] => True | c :: _ => is_space c = false end ->
  lstrip s = s.
Proof. destruct s as [|c s]; simpl; [done|]. by intros ->. Qed.

Lemma lstrip_idem (s : pystr) : lstrip (lstrip s) = lstrip s.
Proof.
  apply lstrip_id. destruct (lstrip s) as [|c rest] eqn:Hs; [done|].
  by eapply lstrip_head.
Qed.

Lemma rstrip_split (s : pystr) :
  exists ws, s = rstrip s ++ ws /\ Forall (fun c => is_space c = true) ws.
Proof.
  destruct (lstrip_split (reverse s)) as (ws & Hs & Hws).
  exists (reverse ws). split; [|by apply Forall_reverse].
  unfold rstrip. rewrite <- reverse_app, <- Hs. by rewrite reverse_involutive.
Qed.

Lemma strip_rstrip_lstrip (s : pystr) : strip s = rstrip (lstrip s).
Proof. reflexivity. Qed.

Lemma rstrip_keeps_head (t : pystr) :
  match t with [] => True | c :: _ => is_space c = false end ->
  match rstrip t with [] => True | c :: _ => is_space c = false end.
Proof.
  intros Ht. destruct (rstrip_split t) as (ws & Hs & _).
  destruct (rstrip t) as [|c u]; [done|].
  rewrite Hs in Ht. exact Ht.
Qed.

Lemma rstrip_idem (s : pystr) : rstrip (rstrip s) = rstrip s.
Proof.
  unfold rstrip. rewrite reverse_involutive. by rewrite lstrip_idem.
Qed.

Lemma strip_head (s : pystr) :
  match strip s with [] => True | c :: _ => is_space c = false end.
Proof.
  rewrite strip_rstrip_lstrip. apply rstrip_keeps_head.
  destruct (lstrip s) as [|c rest] eqn:Hs; [done|]. by eapply lstrip_head.
Qed.

Lemma strip_idem (s : pystr) : strip (strip s) = strip s.
Proof.
  rewrite (strip_rstrip_lstrip (strip s)).
  rewrite (lstrip_id (strip s)) by apply strip_head.
  rewrite strip_rstrip_lstrip. apply rstrip_idem.
Qed.

(** ** Clipping the prompt parts *)

Lemma CLIP_NOTE_length : length CLIP_NOTE = 20%nat.
Proof. reflexivity. Qed.

(** X15. For a limit of at least 200 characters (the limits in use are
    6000, 1500 and 2500), [_clip] never returns more than the limit: a
    stripped text within the limit is returned as it is, a longer one is cut
    to a prefix of at most limit - 200 characters followed by the
    20-character note. *)
Theorem clip_bounded (text : option pystr) (max_chars : Z) :
  200 <= max_chars ->
  let t := strip (default [] text) in
  Z.of_nat (length (_clip text max_chars)) <= max_chars /\
  (Z.of_nat (length t) <= max_chars -> _clip text max_chars = t) /\
  (max_chars < Z.of_nat (length t) ->
     exists body,
       _clip text max_chars = body ++ CLIP_NOTE /\
       body `prefix_of` t /\
       Z.of_nat (length body) <= max_chars - 200).
Proof.
  intros Hmax t. unfold _clip. fold t.
  destruct (Z.leb_spec (Z.of_nat (length t)) max_chars) as [Hfit|Hlong].
  - split; [done|]. split; [done|lia].
  - destruct (rstrip_split (py_slice_to t (max_chars - 200)))
      as (ws & Hbody & _).
    assert (py_slice_to t (max_chars - 200)
            = take (Z.to_nat (max_chars - 200)) t) as Hslice.
    { unfold py_slice_to. destruct (Z.leb_spec 0 (max_chars - 200)); [done|lia]. }
    assert (Z.of_nat (length (rstrip (py_slice_to t (max_chars - 200))))
            <= max_chars - 200) as Hlen.
    { apply (f_equal length) in Hbody. rewrite length_app in Hbody.
      rewrite Hslice in Hbody at 1. rewrite length_take in Hbody. lia. }
    split; [rewrite length_app, CLIP_NOTE_length; lia|].
    split; [lia|]. intros _.
    exists (rstrip (py_slice_to t (max_chars - 200))).
    split; [done|]. split; [|done].
    exists (ws ++ drop (Z.to_nat (max_chars - 200)) t).
    rewrite app_assoc, <- Hbody, Hslice. by rewrite take_drop.
Qed.

Lemma clip_bounded_witness :
  Z.of_nat (length (_clip (Some (replicate 300 97%N)) 250)) <= 250 /\
  _clip (Some [32; 97; 32]%N) 250 = [97%N].
Proof.
  destruct (clip_bounded (Some (replicate 300 97%N)) 250) as (Hlen & _);
    [lia|].
  destruct (clip_bounded (Some [32; 97; 32]%N) 250) as (_ & Hfit & _);
    [lia|].
  split; [exact Hlen|]. apply Hfit. simpl. lia.
Defined.

(** Below 200 the slice bound is negative and counts from the end: the
    result can exceed the limit. *)
Example clip_small_limit :
  length (_clip (Some (replicate 1000 97%N)) 10) = 830%nat.
Proof. vm_compute. reflexivity. Qed.


(** ** Splitting the strategy text *)

Lemma starts_with_app (p s : pystr) :
  starts_with p s = true -> s = p ++ drop (length p) s.
Proof.
  revert s. induction p as [|a p IH]; intros s; simpl; [done|].
  destruct s as [|b s]; [done|].
  intros [Hab Hrest]%andb_true_iff. apply N.eqb_eq in Hab as ->.
  simpl. f_equal. by apply IH.
Qed.

Lemma split_once_app (sep s a b : pystr) :
  split_once sep s = Some (a, b) -> s = a ++ sep ++ b.
Proof.
  revert a. induction s as [|c s IH]; intros a; simpl.
  - destruct (starts_with sep []) eqn:Hsw; [|done].
    intros [= <- <-]. by apply starts_with_app in Hsw.
  - destruct (starts_with sep (c :: s)) eqn:Hsw.
    + intros [= <- <-]. by apply starts_with_app in Hsw.
    + destruct (split_once sep s) as [[a' b']|] eqn:Hrest; [|done].
      intros [= <- <-]. simpl. f_equal. by apply IH.
Qed.

(** X16. When [build_final_strategy] returns, the model's reply (stripped)
    either lacks one of the two SWOT markers, and is then the main text with
    an empty SWOT text; or it reads pre ++ start marker ++ mid ++ end marker
    ++ post, split at the first start marker and the first end marker after
    it, and the main text is pre stripped and the SWOT text mid stripped
    (post is dropped). *)
Theorem build_final_strategy_split (client : result unit)
    (chat : StrategyInputs -> result (option pystr))
    (rag_summary web_summary : option pystr)
    (web_bullets : option (list pystr)) (future_text : option pystr)
    (res : FinalStrategyResult) :
  build_final_strategy client chat rag_summary web_summary web_bullets
    future_text = Ok res ->
  exists content,
    chat (raw res) = Ok content /\
    let full_text := strip (default [] content) in
    ((split_once SWOT_START full_text = None \/
      split_once SWOT_END full_text = None) /\
     main_text res = full_text /\ swot_text res = [])
    \/
    (exists pre mid post,
       full_text = pre ++ SWOT_START ++ mid ++ SWOT_END ++ post /\
       split_once SWOT_START full_text
         = Some (pre, mid ++ SWOT_END ++ post) /\
       split_once SWOT_END (mid ++ SWOT_END ++ post) = Some (mid, post) /\
       main_text res = strip pre /\ swot_text res = strip mid).
Proof.
  unfold build_final_strategy.
  destruct client as [[]|e]; cbn [rbind]; [|done].
  match goal with
  | |- context [chat ?i] => destruct (chat i) as [content|e] eqn:Hchat
  end; cbn [rbind]; [|done].
  destruct (split_once SWOT_START (strip (default [] content)))
    as [[pre rest]|] eqn:Hstart.
  - destruct (split_once SWOT_END (strip (default [] content)))
      as [[x y]|] eqn:Hend.
    + rewrite !bool_decide_eq_true_2 by (by eexists). cbn [andb].
      destruct (split_once SWOT_END rest) as [[mid post]|] eqn:Hmid;
        cbn [rbind]; [|done].
      intros [= <-]. simpl. exists content. split; [done|]. right.
      exists pre, mid, post.
      apply split_once_app in Hmid as Hrest. subst rest.
      split; [by apply split_once_app in Hstart|]. by repeat split.
    + rewrite (bool_decide_eq_false_2 (is_Some None))
        by (intros [? ?]; done).
      rewrite andb_false_r. cbn [rbind].
      intros [= <-]. simpl. exists content. split; [done|]. left.
      split; [by right|done].
  - rewrite (bool_decide_eq_false_2 (is_Some None)) by (intros [? ?]; done).
    cbn [andb rbind].
    intros [= <-]. simpl. exists content. split; [done|]. left.
    split; [by left|done].
Qed.

Lemma build_final_strategy_split_witness :
  exists res,
    build_final_strategy (Ok tt) (fun _ => Ok (Some reply_with_swot))
      None None None None = Ok res /\
    main_text res = [65%N] /\ swot_text res = [66%N] /\
    exists content, Ok (Some reply_with_swot) = Ok content.
Proof.
  eexists. split; [reflexivity|]. split; [reflexivity|]. split; [reflexivity|].
  destruct (build_final_strategy_split (Ok tt)
              (fun _ => Ok (Some reply_with_swot)) None None None None _
              eq_refl) as (content & Hc & _).
  by exists content.
Defined.

(** X17. If the reply contains both markers but no end marker after the
    first start marker, [build_final_strategy] does not return: unpacking
    the second split raises ValueError. *)
Theorem build_final_strategy_marker_order
    (chat : StrategyInputs -> result (option pystr))
    (rag_summary web_summary : option pystr)
    (web_bullets : option (list pystr)) (future_text : option pystr)
    (content : option pystr) (pre rest : pystr) :
  (forall inputs, chat inputs = Ok content) ->
  split_once SWOT_START (strip (default [] content)) = Some (pre, rest) ->
  is_Some (split_once SWOT_END (strip (default [] content))) ->
  split_once SWOT_END rest = None ->
  build_final_strategy (Ok tt) chat rag_summary web_summary web_bullets
    future_text = Raise ValueError.
Proof.
  intros Hchat Hstart Hend Hrest. unfold build_final_strategy.
  cbn [rbind]. rewrite Hchat. cbn [rbind].
  rewrite Hstart, Hrest.
  rewrite !bool_decide_eq_true_2 by (done || by eexists). done.
Qed.

Lemma build_final_strategy_marker_order_witness :
  build_final_strategy (Ok tt) (fun _ => Ok (Some reply_markers_swapped))
    None None None None = Raise ValueError.
Proof.
  apply (build_final_strategy_marker_order
           (fun _ => Ok (Some reply_markers_swapped)) None None None None
           (Some reply_markers_swapped) SWOT_END []).
  - done.
  - reflexivity.
  - by eexists.
  - reflexivity.
Defined.



(** ** Session history of the rephrasing step *)

Lemma get_history_spec (sid : pystr) (store : gmap pystr (list Message)) :
  (get_history sid store).1 = default [] (store !! sid) /\
  (get_history sid store).2 !! sid = Some (default [] (store !! sid)) /\
  (forall sid', sid' <> sid ->
     (get_history sid store).2 !! sid' = store !! sid').
Proof.
  unfold get_history. destruct (store !! sid) as [h|] eqn:Hs; simpl.
  - by repeat split.
  - split; [done|]. split; [by rewrite lookup_insert_eq|].
    intros sid' Hne. by rewrite lookup_insert_ne.
Qed.

Lemma add_message_spec (sid : pystr) (role : string) (content : pystr)
    (store : gmap pystr (list Message)) :
  add_message sid role content store !! sid
  = Some (default [] (store !! sid) ++ [(role, content)]) /\
  (forall sid', sid' <> sid ->
     add_message sid role content store !! sid' = store !! sid').
Proof.
  unfold add_message. destruct (store !! sid) as [h|] eqn:Hs; simpl.
  - set (history := default [] _).
    assert (history = h) as -> by exact (f_equal (default []) Hs).
    split; [by rewrite lookup_insert_eq|].
    intros sid' Hne. by rewrite lookup_insert_ne.
  - rewrite lookup_insert_eq. simpl.
    split; [by rewrite lookup_insert_eq|].
    intros sid' Hne. by rewrite !lookup_insert_ne.
Qed.

(** X19. One [rephrase_query] call with an API client: the request holds
    at most 6 messages (system prompt, the last 4 of the session's history,
    the query); the histories of other sessions are untouched; if the
    completion returns, the session's history grows by exactly the user
    message and the assistant's stripped reply, and the result is that reply
    or, if it is empty, the query itself; if the completion raises an
    [Exception], the history is left as it was and the query is returned. *)
Theorem rephrase_query_history (REPHRASE_SYSTEM : pystr)
    (chat : list Message -> result (option pystr))
    (user_query session_id : pystr) (store : gmap pystr (list Message)) :
  let history := default [] (store !! session_id) in
  let messages := rephrase_messages REPHRASE_SYSTEM history user_query in
  let out := rephrase_query REPHRASE_SYSTEM (Ok tt) chat user_query
               session_id store in
  (length messages <= 6)%nat /\
  (forall sid', sid' <> session_id -> out.2 !! sid' = store !! sid') /\
  match chat messages with
  | Ok content =>
      let rewritten := strip (default [] content) in
      out.2 !! session_id
      = Some (history ++ [("user"%string, user_query);
                          ("assistant"%string, rewritten)]) /\
      out.1 = Ok (if bool_decide (rewritten = []) then user_query
                  else rewritten)
  | Raise e =>
      out.2 !! session_id = Some history /\
      (is_Exception e = true -> out.1 = Ok user_query)
  end.
Proof.
  simpl.
  destruct (get_history_spec session_id store) as (Hh & Hsid & Hother).
  split.
  { unfold rephrase_messages. simpl. rewrite length_app, length_drop. simpl.
    lia. }
  unfold rephrase_query.
  destruct (get_history session_id store) as [history store1] eqn:Hget.
  simpl in Hh, Hsid, Hother. subst history.
  destruct (chat _) as [content|e]; cbv zeta; cbn [fst snd].
  - destruct (add_message_spec session_id "user" user_query store1)
      as [Hu Hu'].
    destruct (add_message_spec session_id "assistant"
                (strip (default [] content))
                (add_message session_id "user" user_query store1))
      as [Ha Ha'].
    split.
    + intros sid' Hne. unfold Message in *. by rewrite Ha', Hu', Hother.
    + split; [|done]. unfold Message in *. rewrite Ha, Hu, Hsid.
      cbn [default from_option]. unfold id.
      by rewrite <- app_assoc.
  - destruct (is_Exception e); cbn [fst snd]; (split; [done|]); by split.
Qed.

Lemma rephrase_query_history_witness :
  (rephrase_query [] (Ok tt) (fun _ => Ok (Some [32; 98]%N)) [97%N] [49%N]
     ∅).2 !! [49%N]
  = Some [("user"%string, [97%N]); ("assistant"%string, [98%N])].
Proof.
  destruct (rephrase_query_history [] (fun _ => Ok (Some [32; 98]%N))
              [97%N] [49%N] ∅) as (_ & _ & Hhist & _).
  exact Hhist.
Defined.

(** ** Enriching the query *)

(** [enrich_query] on a non-blank query, case by case. *)
Lemma enrich_query_nonblank (client : result unit)
    (chat : pystr -> result (option pystr)) (original_query : pystr) :
  strip original_query <> [] ->
  enrich_query client chat original_query
  = match client with
    | Ok _ =>
        match chat (strip original_query) with
        | Ok content =>
            if Z.of_nat (length (strip (default [] content))) <? 3
            then Ok (strip original_query)
            else Ok (strip (default [] content))
        | Raise e =>
            if is_Exception e then Ok (strip original_query) else Raise e
        end
    | Raise e => if is_Exception e then Ok (strip original_query) else Raise e
    end.
Proof.
  intros Hne. unfold enrich_query.
  assert (original_query <> []) as Hq by (intros ->; done).
  rewrite !bool_decide_eq_false_2 by done. cbn [orb].
  destruct client as [[]|e0]; cbn [rbind]; [|done].
  destruct (chat _) as [content|e1]; cbn [rbind]; [|done].
  rewrite strip_idem.
  destruct (bool_decide (strip (default [] content) = [])) eqn:Hempty;
    cbn [orb].
  - apply bool_decide_eq_true in Hempty. by rewrite Hempty.
  - by destruct (_ <? 3).
Qed.

(** X20. [enrich_query] lets no [Exception] escape. A blank query is
    returned unchanged. For a non-blank query the result is never blank and
    has no surrounding whitespace: it is the model's stripped reply when
    that has at least 3 characters, and the stripped query otherwise
    (missing API key, failed request, empty or short reply). *)
Theorem enrich_query_result (client : result unit)
    (chat : pystr -> result (option pystr)) (original_query : pystr) :
  (forall e, enrich_query client chat original_query = Raise e ->
     is_Exception e = false) /\
  (strip original_query = [] ->
     enrich_query client chat original_query = Ok original_query) /\
  (strip original_query <> [] ->
     forall out, enrich_query client chat original_query = Ok out ->
       out <> [] /\ strip out = out /\
       (out = strip original_query \/
        exists reply,
          client = Ok tt /\
          chat (strip original_query) = Ok (Some reply) /\
          out = strip reply /\ 3 <= Z.of_nat (length out))) /\
  (strip original_query <> [] ->
     (forall reply,
        client = Ok tt -> chat (strip original_query) = Ok (Some reply) ->
        3 <= Z.of_nat (length (strip reply)) ->
        enrich_query client chat original_query = Ok (strip reply)) /\
     (forall content,
        client = Ok tt -> chat (strip original_query) = Ok content ->
        Z.of_nat (length (strip (default [] content))) < 3 ->
        enrich_query client chat original_query = Ok (strip original_query)) /\
     (forall e,
        client = Raise e \/
        (client = Ok tt /\ chat (strip original_query) = Raise e) ->
        enrich_query client chat original_query
        = if is_Exception e then Ok (strip original_query) else Raise e)).
Proof.
  assert (forall A B C D : Prop, A /\ B /\ C -> D -> A /\ B /\ C /\ D)
    as Hjoin by tauto.
  apply Hjoin; clear Hjoin.
  2:{ intros Hne. rewrite (enrich_query_nonblank client chat _ Hne).
      split; [|split].
      - intros reply -> -> Hlong. simpl.
        by replace (_ <? 3) with false by lia.
      - intros content -> -> Hshort.
        by replace (_ <? 3) with true by lia.
      - intros e [->|[-> ->]]; done. }
  unfold enrich_query. split; [|split].
  - intros e. destruct (_ || _); [done|].
    destruct client as [[]|e0]; cbn [rbind].
    + destruct (chat _) as [content|e1]; cbn [rbind].
      * by destruct (_ || _).
      * destruct (is_Exception e1) eqn:He1; [done|]. by intros [= <-].
    + destruct (is_Exception e0) eqn:He0; [done|]. by intros [= <-].
  - intros Hblank. rewrite (bool_decide_eq_true_2 (strip _ = [])) by done.
    by rewrite orb_true_r.
  - intros Hne out.
    assert (original_query <> []) as Hq by (intros ->; done).
    rewrite !bool_decide_eq_false_2 by done. cbn [orb].
    assert (strip original_query <> [] /\
            strip (strip original_query) = strip original_query) as Hfallback
      by (split; [done|apply strip_idem]).
    destruct client as [[]|e0]; cbn [rbind].
    + destruct (chat _) as [content|e1] eqn:Hchat; cbn [rbind].
      * destruct (bool_decide (strip (default [] content) = [])) eqn:Hempty;
          cbn [orb].
        { intros [= <-]. destruct Hfallback. by repeat split; [..|left]. }
        destruct (Z.ltb_spec (Z.of_nat (length (strip (default [] content))))
                    3) as [Hshort|Hlong].
        { intros [= <-]. destruct Hfallback. by repeat split; [..|left]. }
        intros [= <-]. apply bool_decide_eq_false in Hempty.
        rewrite strip_idem. split; [done|]. split; [apply strip_idem|].
        right. destruct content as [reply|]; [|done].
        exists reply. by repeat split.
      * destruct (is_Exception e1); [|done].
        intros [= <-]. destruct Hfallback. by repeat split; [..|left].
    + destruct (is_Exception e0); [|done].
      intros [= <-]. destruct Hfallback. by repeat split; [..|left].
Qed.

Lemma enrich_query_result_witness :
  enrich_query (Ok tt) (fun _ => Ok (Some [32; 97; 98; 99]%N)) [32; 97]%N
    = Ok [97; 98; 99]%N /\
  enrich_query (Ok tt) (fun _ => Ok (Some [97; 98]%N)) [32; 97]%N
    = Ok [97%N] /\
  enrich_query (Raise ValueError) (fun _ => Ok None) [32; 97; 32]%N
    = Ok [97%N] /\
  enrich_query (Ok tt) (fun _ => Ok (Some [97; 98]%N)) [32]%N = Ok [32%N].
Proof.
  split; [|split; [|split]].
  - destruct (enrich_query_result (Ok tt)
                (fun _ => Ok (Some [32; 97; 98; 99]%N)) [32; 97]%N)
      as (_ & _ & _ & Hcases).
    destruct Hcases as (Hreply & _ & _); [discriminate|].
    apply (Hreply [32; 97; 98; 99]%N); [reflexivity|reflexivity|].
    vm_compute. discriminate.
  - destruct (enrich_query_result (Ok tt)
                (fun _ => Ok (Some [97; 98]%N)) [32; 97]%N)
      as (_ & _ & _ & Hcases).
    destruct Hcases as (_ & Hshort & _); [discriminate|].
    apply (Hshort (Some [97; 98]%N)); [reflexivity|reflexivity|].
    vm_compute. reflexivity.
  - destruct (enrich_query_result (Raise ValueError)
                (fun _ => Ok None) [32; 97; 32]%N)
      as (_ & _ & _ & Hcases).
    destruct Hcases as (_ & _ & Hraise); [discriminate|].
    apply (Hraise ValueError). by left.
  - apply (enrich_query_result (Ok tt) (fun _ => Ok (Some [97; 98]%N))
             [32]%N).
    reflexivity.
Defined.
